(** * Reconciliation engine of the n8n manager backend

    A shallow embedding of the Go package [n8n] (files [models.go],
    [workflow.go], the webhook file and the cron file) together with the
    properties of its reconciliation pass.

    Go strings are byte sequences: record fields hold them as [string],
    the text algorithms run on [list ascii].  Go's [int] and
    [time.Duration] are 64-bit; they are [Z] with the wrap-around written
    where the code multiplies.  The PocketBase application ([core.App]) is
    an in-memory store threaded through a state monad; every store call
    may fail, as scripted by the store's fault list. *)

From Stdlib Require Import ZArith String Ascii List Bool Lia Permutation DecimalString.
From stdpp Require Import base list gmap strings fin_maps.

Import ListNotations.
Local Open Scope Z_scope.

(** ** Go strings as byte lists *)

Module GoStrings.

Definition bytes := list ascii.

Definition of_string (s : string) : bytes := list_ascii_of_string s.
Definition to_string (b : bytes) : string := string_of_list_ascii b.

Definition LF : ascii := ascii_of_nat 10.
Definition CR : ascii := ascii_of_nat 13.

(** [strings.HasPrefix] *)
Fixpoint HasPrefix (s prefix : bytes) {struct prefix} : bool :=
  match prefix with
  | [] => true
  | p :: ps =>
      match s with
      | [] => false
      | c :: cs => Ascii.eqb c p && HasPrefix cs ps
      end
  end.

(** [strings.Index]: the position of the first occurrence of [sep]. *)
Fixpoint Index (s sep : bytes) : option nat :=
  if HasPrefix s sep then Some 0%nat
  else match s with
       | [] => None
       | _ :: s' => option_map S (Index s' sep)
       end.

(** [strings.Contains] *)
Definition Contains (s substr : bytes) : bool :=
  match Index s substr with Some _ => true | None => false end.

(** [strings.SplitN(s, sep, 2)] for a non-empty separator: at most two
    pieces, cut at the first occurrence. *)
Definition SplitN2 (s sep : bytes) : list bytes :=
  match Index s sep with
  | Some i => [take i s; drop (i + length sep) s]
  | None => [s]
  end.

(** White space as [unicode.IsSpace] sees it, on the UTF-8 encoding. *)
Definition isSpace1 (c : ascii) : bool :=
  let n := N_of_ascii c in
  ((9 <=? n) && (n <=? 13) || (n =? 32))%N.

(** U+0085 and U+00A0. *)
Definition isSpace2 (c1 c2 : ascii) : bool :=
  let a := N_of_ascii c1 in
  let b := N_of_ascii c2 in
  ((a =? 194) && ((b =? 133) || (b =? 160)))%N.

(** U+1680, U+2000..U+200A, U+2028, U+2029, U+202F, U+205F, U+3000. *)
Definition isSpace3 (c1 c2 c3 : ascii) : bool :=
  let a := N_of_ascii c1 in
  let b := N_of_ascii c2 in
  let c := N_of_ascii c3 in
  ((a =? 225) && (b =? 154) && (c =? 128)
   || (a =? 226) && (b =? 128)
        && ((128 <=? c) && (c <=? 138) || (c =? 168) || (c =? 169) || (c =? 175))
   || (a =? 226) && (b =? 129) && (c =? 159)
   || (a =? 227) && (b =? 128) && (c =? 128))%N.

(** Strip leading white-space runes; [p2] and [p3] recognise the two- and
    three-byte ones in the order the bytes are met. *)
Fixpoint trimFront (p2 : ascii -> ascii -> bool)
    (p3 : ascii -> ascii -> ascii -> bool) (s : bytes) : bytes :=
  match s with
  | [] => []
  | c1 :: r1 =>
      if isSpace1 c1 then trimFront p2 p3 r1
      else match r1 with
           | [] => s
           | c2 :: r2 =>
               if p2 c1 c2 then trimFront p2 p3 r2
               else match r2 with
                    | [] => s
                    | c3 :: r3 =>
                        if p3 c1 c2 c3 then trimFront p2 p3 r3 else s
                    end
           end
  end.

Definition TrimLeftSpace (s : bytes) : bytes := trimFront isSpace2 isSpace3 s.

Definition TrimRightSpace (s : bytes) : bytes :=
  rev (trimFront (fun a b => isSpace2 b a) (fun a b c => isSpace3 c b a) (rev s)).

(** [strings.TrimSpace] *)
Definition TrimSpace (s : bytes) : bytes := TrimRightSpace (TrimLeftSpace s).

(** The pieces of a text between line feeds. *)
Fixpoint splitLines (s : bytes) : list bytes :=
  match s with
  | [] => [[]]
  | c :: s' =>
      if Ascii.eqb c LF then [] :: splitLines s'
      else match splitLines s' with
           | l :: ls => (c :: l) :: ls
           | [] => [[c]]
           end
  end.

(** [bufio.dropCR] *)
Definition dropCR (data : bytes) : bytes :=
  match rev data with
  | c :: r => if Ascii.eqb c CR then rev r else data
  | [] => data
  end.

(** [bufio.MaxScanTokenSize]: a [bufio.Scanner] keeps the line it is
    reading in a buffer that grows to this size and no further. *)
Definition MaxScanTokenSize : N := 65536.

(** A line the scanner can deliver: it fits the buffer with room for the
    line feed, or for the read that finds the end of the input. *)
Definition fitsBuffer (l : bytes) : bool :=
  (N.of_nat (length l) <? MaxScanTokenSize)%N.

Fixpoint takeWhile {A} (p : A -> bool) (l : list A) : list A :=
  match l with
  | [] => []
  | x :: l' => if p x then x :: takeWhile p l' else []
  end.

(** At the end of the input [bufio.ScanLines] delivers what is left only
    if something is left. *)
Fixpoint dropFinalEmpty (ls : list bytes) : list bytes :=
  match ls with
  | [] => []
  | l :: ls' =>
      match ls' with
      | [] => match l with [] => [] | _ :: _ => [l] end
      | _ :: _ => l :: dropFinalEmpty ls'
      end
  end.

(** The tokens [bufio.Scanner.Scan] delivers with the split function
    [bufio.ScanLines] over a [strings.Reader]: the lines in order, each
    without its line feed and without a carriage return before it.  On a
    line of [MaxScanTokenSize] bytes or more the scanner stops with
    [bufio.ErrTooLong] and [Scan] returns false from then on. *)
Definition ScanLines (input : bytes) : list bytes :=
  map dropCR (takeWhile fitsBuffer (dropFinalEmpty (splitLines input))).

End GoStrings.

Import GoStrings.

(** ** Route labels ([ExtractRoute]) *)

Definition routeMarker : bytes := of_string "route:".

(** The loop of [ExtractRoute] over the scanner's tokens. *)
Fixpoint ExtractRoute_scan (lines : list bytes) : bytes :=
  match lines with
  | [] => []
  | line :: rest =>
      if Contains line routeMarker then
        match SplitN2 line routeMarker with
        | _ :: p :: _ => TrimSpace p
        | _ => ExtractRoute_scan rest
        end
      else ExtractRoute_scan rest
  end.

(** [ExtractRoute] finds the line containing "route:" and returns the
    trimmed part after it. *)
Definition ExtractRoute (input : string) : string :=
  to_string (ExtractRoute_scan (ScanLines (of_string input))).



(** ** Time

    A [time.Time] is the number of nanoseconds since the Unix epoch; the
    remote instance reports its instants in UTC.  Record dates lie in the
    years 0 to 9999, far inside the range in which [Time.Add] is exact. *)

Definition Time := Z.

(** [time.Duration]: a signed 64-bit count of nanoseconds. *)
Definition wrap64 (z : Z) : Z := (z + 2 ^ 63) mod 2 ^ 64 - 2 ^ 63.

Definition Second : Z := 1000000000.
Definition Minute : Z := 60 * Second.

(** [Time.Add] and [Time.After] *)
Definition Add (t : Time) (d : Z) : Time := t + d.
Definition After (t u : Time) : bool := u <? t.

Definition decimal (z : Z) : string := NilEmpty.string_of_int (Z.to_int z).

Definition digit (z : Z) : ascii := ascii_of_N (48 + Z.to_N z).

Definition dec2 (z : Z) : string :=
  String (digit (z / 10 mod 10)) (String (digit (z mod 10)) EmptyString).

Definition dec4 (z : Z) : string := (dec2 (z / 100) ++ dec2 z)%string.

(** The civil date of a day count since 1970-01-01 (proleptic Gregorian
    calendar). *)
Definition civil (days : Z) : Z * Z * Z :=
  let z := days + 719468 in
  let era := z / 146097 in
  let doe := z mod 146097 in
  let yoe := (doe - doe / 1460 + doe / 36524 - doe / 146096) / 365 in
  let doy := doe - (365 * yoe + yoe / 4 - yoe / 100) in
  let mp := (5 * doy + 2) / 153 in
  let d := doy - (153 * mp + 2) / 5 + 1 in
  let m := if mp <? 10 then mp + 3 else mp - 9 in
  let y := yoe + era * 400 + (if m <=? 2 then 1 else 0) in
  (y, m, d).

(** [t.Format(time.RFC3339)] of an instant in UTC: whole seconds, the
    fraction of the second is not printed. *)
Definition FormatRFC3339 (t : Time) : string :=
  let secs := t / Second in
  let '(y, m, d) := civil (secs / 86400) in
  let sod := secs mod 86400 in
  (dec4 y ++ "-" ++ dec2 m ++ "-" ++ dec2 d ++ "T"
   ++ dec2 (sod / 3600) ++ ":" ++ dec2 (sod / 60 mod 60) ++ ":" ++ dec2 (sod mod 60)
   ++ "Z")%string.

(** ** Data model ([models.go]) *)

Definition error := string.

Inductive result (A : Type) : Type :=
| Ok (a : A)
| Err (e : error).
Arguments Ok {A} a.
Arguments Err {A} e.

Module NodeCredential.
Record t := mk { ID : string; Name : string }.
End NodeCredential.

Module NodeParameters.
(** [Options] is the bag the node declares, kept as its JSON text; [None]
    is the nil map. *)
Record t := mk {
  HTTPMethod : string;
  Path : string;
  Authentication : string;
  Options : option string
}.
End NodeParameters.

Module Node.
Record t := mk {
  ID : string;
  Name : string;
  Type_ : string;
  Parameters : NodeParameters.t;
  Credentials : gmap string NodeCredential.t;
  WebhookID : string;
  Notes : string
}.
End Node.

Module Workflow.
Record t := mk {
  ID : string;
  Name : string;
  WorkflowID : string;
  Active : bool;
  CreatedAt : Time;
  UpdatedAt : Time;
  Nodes : list Node.t;
  InstanceID : string
}.
End Workflow.

Module Instance.
Record t := mk {
  Id : string;
  Host : string;
  APIKey : string;
  IgnoreSSLErrors : bool;
  CheckInterval : Z
}.
End Instance.

Module WebhookCredentials.
Record t := mk { Type_ : string; ID : string; Name : string }.
End WebhookCredentials.

Module Webhook.
Record t := mk {
  ID : string;
  WebhookID : string;
  NodeID : string;
  NodeName : string;
  Method : string;
  Path : string;
  URL : string;
  Options : option string;
  Notes : string;
  Route : string;
  AuthType : string;
  Credentials : option WebhookCredentials.t;
  WorkflowID : string;
  InstanceID : string
}.
End Webhook.

Module InstanceStats.
Record t := mk {
  TotalWorkflows : Z;
  ActiveWorkflows : Z;
  InactiveWorkflows : Z;
  TotalWebhooks : Z;
  ActiveWebhooks : Z;
  InactiveWebhooks : Z;
  RedisTriggers : Z;
  ScheduledTriggers : Z
}.
Definition zero : t := mk 0 0 0 0 0 0 0 0.
End InstanceStats.

(** [NewInstance] creates a new n8n instance. *)
Definition NewInstance (id host apiKey : string) : Instance.t :=
  Instance.mk id host apiKey false 5.

(** ** The records of the store (the collections of the migration) *)

Module InstanceRecord.
Record t := mk {
  Id : string;
  host : string;
  api_key : string;
  ignore_ssl_errors : bool;
  check_interval_mins : Z;
  last_check : Time;
  availability_status : bool;
  availability_note : string;
  workflows_active : Z;
  workflows_inactive : Z;
  webhooks_active : Z;
  webhooks_inactive : Z
}.
End InstanceRecord.

Module WorkflowRecord.
(** [workflow_data] holds the JSON text of the workflow; the model keeps
    the workflow that text is made from. *)
Record t := mk {
  Id : nat;
  instance : string;
  workflow_name : string;
  workflow_id : string;
  created_at : string;
  updated_at : string;
  number_of_nodes : Z;
  nodes : string;
  workflow_data : Workflow.t;
  active : bool
}.
End WorkflowRecord.

Module WebhookRecord.
Record t := mk {
  Id : nat;
  node_id : string;
  instance : string;
  workflow_id : string;
  notes : string;
  route : string;
  workflow_name : string;
  webhook_url : string;
  methods : list string;
  options : option string;
  auth_type : string
}.
End WebhookRecord.

(** ** The application store ([core.App])

    Rows are kept in insertion order.  [faults] scripts the outcome of
    the store calls to come, one entry per call: [Some e] makes the call
    fail with the error [e]; calls beyond the script succeed.  [journal]
    lists the write calls issued so far, oldest first, each with the
    record it was given and whether the store accepted it. *)

Inductive StoreCall : Type :=
| SaveWorkflow (r : WorkflowRecord.t) (accepted : bool)
| SaveWebhook (r : WebhookRecord.t) (accepted : bool)
| DeleteWebhook (r : WebhookRecord.t) (accepted : bool)
| SaveInstance (r : InstanceRecord.t) (accepted : bool).

Record App := mkApp {
  instances : list InstanceRecord.t;
  workflows : list WorkflowRecord.t;
  webhooks : list WebhookRecord.t;
  next_id : nat;
  faults : list (option error);
  clock : Time;
  journal : list StoreCall
}.

Definition M (A : Type) : Type := App -> A * App.

Definition ret {A} (a : A) : M A := fun app => (a, app).

Definition bind {A B} (m : M A) (k : A -> M B) : M B :=
  fun app => let '(a, app') := m app in k a app'.

Notation "'let*' x := m 'in' k" := (bind m (fun x => k))
  (at level 10, x name, m at level 100, k at level 200).

(** [for _, x := range l { body }] *)
Fixpoint forEach {A} (l : list A) (body : A -> M unit) : M unit :=
  match l with
  | [] => ret tt
  | x :: l' => let* _ := body x in forEach l' body
  end.

(** The outcome the script holds for the next store call. *)
Definition nextOutcome : M (option error) :=
  fun app =>
    match faults app with
    | [] => (None, app)
    | o :: rest =>
        (o, mkApp (instances app) (workflows app) (webhooks app) (next_id app)
              rest (clock app) (journal app))
    end.

Definition logCall (w : StoreCall) : M unit :=
  fun app =>
    (tt, mkApp (instances app) (workflows app) (webhooks app) (next_id app)
           (faults app) (clock app) (journal app ++ [w])).

(** [time.Now] *)
Definition time_Now : M Time := fun app => (clock app, app).

Definition elapse (d : N) : M unit :=
  fun app =>
    (tt, mkApp (instances app) (workflows app) (webhooks app) (next_id app)
           (faults app) (clock app + Z.of_N d) (journal app)).

(** [app.FindCollectionByNameOrId] for a collection of the migration. *)
Definition FindCollectionByNameOrId (name : string) : M (result string) :=
  let* o := nextOutcome in
  match o with
  | Some e => ret (Err e)
  | None => ret (Ok name)
  end.

Definition matchesWorkflow (instance workflow_id : string) (r : WorkflowRecord.t) : bool :=
  String.eqb (WorkflowRecord.workflow_id r) workflow_id
  && String.eqb (WorkflowRecord.instance r) instance.

Definition matchesWebhook (instance workflow_id : string) (r : WebhookRecord.t) : bool :=
  String.eqb (WebhookRecord.instance r) instance
  && String.eqb (WebhookRecord.workflow_id r) workflow_id.

(** The sort ["-created_at"]: descending on the text of the field, rows
    with equal texts in insertion order. *)
Fixpoint insertDesc (r : WorkflowRecord.t) (l : list WorkflowRecord.t) : list WorkflowRecord.t :=
  match l with
  | [] => [r]
  | x :: l' =>
      if String.leb (WorkflowRecord.created_at x) (WorkflowRecord.created_at r)
      then r :: l
      else x :: insertDesc r l'
  end.

Definition sortDesc (l : list WorkflowRecord.t) : list WorkflowRecord.t :=
  foldr insertDesc [] l.

(** [app.FindRecordsByFilter(workflows,
      "workflow_id = {:workflow_id} && instance = {:instance}",
      "-created_at", limit, 0, ...)] *)
Definition FindRecordsByFilter (instance workflow_id : string) (limit : nat)
  : M (result (list WorkflowRecord.t)) :=
  let* o := nextOutcome in
  match o with
  | Some e => ret (Err e)
  | None =>
      fun app =>
        (Ok (take limit
               (sortDesc (filter (fun r => matchesWorkflow instance workflow_id r = true)
                            (workflows app)))), app)
  end.

(** [app.FindAllRecords(webhooks,
      "instance = {:instance} AND workflow_id = {:workflow_id}")] *)
Definition FindAllRecords_webhooks (instance workflow_id : string)
  : M (result (list WebhookRecord.t)) :=
  let* o := nextOutcome in
  match o with
  | Some e => ret (Err e)
  | None =>
      fun app =>
        (Ok (filter (fun r => matchesWebhook instance workflow_id r = true)
               (webhooks app)), app)
  end.

(** [app.FindAllRecords("instances")] *)
Definition FindAllRecords_instances : M (result (list InstanceRecord.t)) :=
  let* o := nextOutcome in
  match o with
  | Some e => ret (Err e)
  | None => fun app => (Ok (instances app), app)
  end.

(** A record with the id the store gives it. *)
Definition withWorkflowId (id : nat) (r : WorkflowRecord.t) : WorkflowRecord.t :=
  WorkflowRecord.mk id
    (WorkflowRecord.instance r) (WorkflowRecord.workflow_name r)
    (WorkflowRecord.workflow_id r) (WorkflowRecord.created_at r)
    (WorkflowRecord.updated_at r) (WorkflowRecord.number_of_nodes r)
    (WorkflowRecord.nodes r) (WorkflowRecord.workflow_data r)
    (WorkflowRecord.active r).

Definition withWebhookId (id : nat) (r : WebhookRecord.t) : WebhookRecord.t :=
  WebhookRecord.mk id
    (WebhookRecord.node_id r) (WebhookRecord.instance r)
    (WebhookRecord.workflow_id r) (WebhookRecord.notes r)
    (WebhookRecord.route r) (WebhookRecord.workflow_name r)
    (WebhookRecord.webhook_url r) (WebhookRecord.methods r)
    (WebhookRecord.options r) (WebhookRecord.auth_type r).

(** [app.Save] of a new workflow record: the store gives it an id. *)
Definition Save_workflow (r : WorkflowRecord.t) : M (option error) :=
  let* o := nextOutcome in
  match o with
  | Some e => let* _ := logCall (SaveWorkflow r false) in ret (Some e)
  | None =>
      fun app =>
        let r' := withWorkflowId (next_id app) r in
        (None, mkApp (instances app) (workflows app ++ [r']) (webhooks app)
                 (S (next_id app)) (faults app) (clock app)
                 (journal app ++ [SaveWorkflow r true]))
  end.

(** [app.Save] of a new webhook record. *)
Definition Save_webhook (r : WebhookRecord.t) : M (option error) :=
  let* o := nextOutcome in
  match o with
  | Some e => let* _ := logCall (SaveWebhook r false) in ret (Some e)
  | None =>
      fun app =>
        let r' := withWebhookId (next_id app) r in
        (None, mkApp (instances app) (workflows app) (webhooks app ++ [r'])
                 (S (next_id app)) (faults app) (clock app)
                 (journal app ++ [SaveWebhook r true]))
  end.

(** [app.Delete] of a webhook record: the row with its id goes. *)
Definition Delete_webhook (r : WebhookRecord.t) : M (option error) :=
  let* o := nextOutcome in
  match o with
  | Some e => let* _ := logCall (DeleteWebhook r false) in ret (Some e)
  | None =>
      fun app =>
        (None, mkApp (instances app) (workflows app)
                 (filter (fun x => WebhookRecord.Id x <> WebhookRecord.Id r) (webhooks app))
                 (next_id app) (faults app) (clock app)
                 (journal app ++ [DeleteWebhook r true]))
  end.

(** [app.Save] of an instance record read from the store: the row with
    its id is replaced. *)
Definition Save_instance (r : InstanceRecord.t) : M (option error) :=
  let* o := nextOutcome in
  match o with
  | Some e => let* _ := logCall (SaveInstance r false) in ret (Some e)
  | None =>
      fun app =>
        (None, mkApp
                 (map (fun x => if String.eqb (InstanceRecord.Id x) (InstanceRecord.Id r)
                                then r else x) (instances app))
                 (workflows app) (webhooks app)
                 (next_id app) (faults app) (clock app)
                 (journal app ++ [SaveInstance r true]))
  end.

(** ** Statistics ([GetInstanceStats]) *)

Definition webhookType : string := "n8n-nodes-base.webhook".
Definition redisTriggerType : string := "n8n-nodes-base.redisTrigger".
Definition scheduleTriggerType : string := "n8n-nodes-base.scheduleTrigger".

(** The [switch node.Type] of the inner loop. *)
Definition countNode (active : bool) (stats : InstanceStats.t) (node : Node.t)
  : InstanceStats.t :=
  let '(InstanceStats.mk total act inact wh whAct whInact redis sched) := stats in
  if String.eqb (Node.Type_ node) webhookType then
    if active
    then InstanceStats.mk total act inact (wh + 1) (whAct + 1) whInact redis sched
    else InstanceStats.mk total act inact (wh + 1) whAct (whInact + 1) redis sched
  else if String.eqb (Node.Type_ node) redisTriggerType then
    InstanceStats.mk total act inact wh whAct whInact (redis + 1) sched
  else if String.eqb (Node.Type_ node) scheduleTriggerType then
    InstanceStats.mk total act inact wh whAct whInact redis (sched + 1)
  else stats.

(** The body of the outer loop. *)
Definition countWorkflow (stats : InstanceStats.t) (workflow : Workflow.t)
  : InstanceStats.t :=
  let '(InstanceStats.mk total act inact wh whAct whInact redis sched) := stats in
  let stats' :=
    if Workflow.Active workflow
    then InstanceStats.mk total (act + 1) inact wh whAct whInact redis sched
    else InstanceStats.mk total act (inact + 1) wh whAct whInact redis sched in
  foldl (countNode (Workflow.Active workflow)) stats' (Workflow.Nodes workflow).

(** [GetInstanceStats] collects statistics about an n8n instance.  It
    receives the workflows and nothing of the store. *)
Definition GetInstanceStats (workflows : list Workflow.t)
  : InstanceStats.t * option error :=
  let stats := InstanceStats.mk (Z.of_nat (length workflows)) 0 0 0 0 0 0 0 in
  (foldl countWorkflow stats workflows, None).

(** ** Due-ness ([shouldCheckInstance]) *)

(** [shouldCheckInstance] determines if it is time to check an instance
    based on its check interval; [now] is the reading of [time.Now]. *)
Definition shouldCheckInstance (now : Time) (lastCheck : Time) (checkInterval : Z) : bool :=
  let checkInterval := if checkInterval =? 0 then 5 else checkInterval in
  let nextCheckTime := Add lastCheck (wrap64 (checkInterval * Minute)) in
  After now nextCheckTime.

(** ** The remote instance ([client.go]) *)

(** What one round trip of [GetWorkflows] meets. *)
Inductive Fetch : Type :=
| RequestFailed (e : error)
| DoFailed (e : error)
| NotOK (status : Z) (body : string)
| ReadFailed (e : error)
| DebugFileFailed (e : error)
| DecodeFailed (e : error)
| Decoded (data : list Workflow.t).

Record Reply := mkReply { elapsed : N; outcome : Fetch }.

Definition stampInstance (id : string) (w : Workflow.t) : Workflow.t :=
  Workflow.mk (Workflow.ID w) (Workflow.Name w) (Workflow.WorkflowID w)
    (Workflow.Active w) (Workflow.CreatedAt w) (Workflow.UpdatedAt w)
    (Workflow.Nodes w) id.

Section Engine.

(** The order in which a [range] loop visits a map: Go leaves it open. *)
Variable mapRange : gmap string NodeCredential.t -> list (string * NodeCredential.t).

(** The remote instances, as seen through [client.http.Do]. *)
Variable remote : Instance.t -> Reply.

(** [GetWorkflows] retrieves all workflows from the n8n instance. *)
Definition GetWorkflows (instance : Instance.t) : M (result (list Workflow.t)) :=
  let reply := remote instance in
  let* _ := elapse (elapsed reply) in
  ret match outcome reply with
      | RequestFailed e => Err ("error creating request: " ++ e)%string
      | DoFailed e => Err ("error making request: " ++ e)%string
      | NotOK status body =>
          Err ("API request failed with status " ++ decimal status ++ ": " ++ body)%string
      | ReadFailed e => Err ("error reading response body: " ++ e)%string
      | DebugFileFailed e => Err ("error writing debug file: " ++ e)%string
      | DecodeFailed e => Err ("error decoding response: " ++ e)%string
      | Decoded data => Ok (map (stampInstance (Instance.Id instance)) data)
      end.

(** ** Webhooks *)

(** The [range] loop over the credentials, left at its first round. *)
Definition firstCredential (node : Node.t) : option WebhookCredentials.t :=
  match mapRange (Node.Credentials node) with
  | (credType, cred) :: _ =>
      Some (WebhookCredentials.mk credType (NodeCredential.ID cred) (NodeCredential.Name cred))
  | [] => None
  end.

Definition webhookOfNode (workflow : Workflow.t) (node : Node.t) : Webhook.t :=
  Webhook.mk
    (Node.WebhookID node)
    EmptyString
    (Node.ID node)
    (Node.Name node)
    (NodeParameters.HTTPMethod (Node.Parameters node))
    (NodeParameters.Path (Node.Parameters node))
    (Workflow.InstanceID workflow ++ "/webhook/" ++ NodeParameters.Path (Node.Parameters node))%string
    (NodeParameters.Options (Node.Parameters node))
    (Node.Notes node)
    EmptyString
    (NodeParameters.Authentication (Node.Parameters node))
    (firstCredential node)
    (Workflow.ID workflow)
    (Workflow.InstanceID workflow).

Fixpoint extractWebhooks_nodes (workflow : Workflow.t) (nodes : list Node.t) : list Webhook.t :=
  match nodes with
  | [] => []
  | node :: rest =>
      if negb (String.eqb (Node.Type_ node) webhookType)
      then extractWebhooks_nodes workflow rest
      else webhookOfNode workflow node :: extractWebhooks_nodes workflow rest
  end.

(** Extract webhook information from a workflow. *)
Definition extractWebhooksFromWorkflow (workflow : Workflow.t) : list Webhook.t :=
  extractWebhooks_nodes workflow (Workflow.Nodes workflow).

(** Helper function to get workflow name from workflow ID. *)
Definition getWorkflowName (instanceID workflowID : string) : M string :=
  let* found := FindRecordsByFilter instanceID workflowID 1 in
  ret match found with
      | Ok (r :: _) => WorkflowRecord.workflow_name r
      | _ => workflowID
      end.

(** The record [syncWebhooks] fills for one webhook. *)
Definition webhookRecord (instance : Instance.t) (workflow : Workflow.t)
    (workflowName : string) (webhook : Webhook.t) : WebhookRecord.t :=
  WebhookRecord.mk 0%nat
    (Webhook.NodeID webhook)
    (Instance.Id instance)
    (Workflow.WorkflowID workflow)
    (Webhook.Notes webhook)
    (ExtractRoute (Webhook.Notes webhook))
    workflowName
    (Instance.Host instance ++ "/webhook/" ++ Webhook.Path webhook)%string
    [Webhook.Method webhook]
    (Webhook.Options webhook)
    (match Webhook.Credentials webhook with
     | Some _ => Webhook.AuthType webhook
     | None => EmptyString
     end).

(** The body of the insert loop; a failed save is logged and the loop
    goes on. *)
Definition syncWebhooks_insert (instance : Instance.t) (workflow : Workflow.t)
    (webhook : Webhook.t) : M unit :=
  let* workflowName := getWorkflowName (Instance.Id instance) (Workflow.WorkflowID workflow) in
  let* _ := Save_webhook (webhookRecord instance workflow workflowName webhook) in
  ret tt.

(** The delete loop: the first failure ends [syncWebhooks]. *)
Fixpoint syncWebhooks_delete (records : list WebhookRecord.t) : M (option error) :=
  match records with
  | [] => ret None
  | r :: rest =>
      let* d := Delete_webhook r in
      match d with
      | Some e => ret (Some e)
      | None => syncWebhooks_delete rest
      end
  end.

(** [syncWebhooks] synchronizes webhooks from an n8n instance to the
    PocketBase database. *)
Definition syncWebhooks (instance : Instance.t) (workflow : Workflow.t) : M (option error) :=
  let* collection := FindCollectionByNameOrId "webhooks" in
  match collection with
  | Err e => ret (Some e)
  | Ok _ =>
      let* found := FindAllRecords_webhooks (Instance.Id instance) (Workflow.WorkflowID workflow) in
      match found with
      | Err e => ret (Some e)
      | Ok records =>
          let* d := syncWebhooks_delete records in
          match d with
          | Some e => ret (Some e)
          | None =>
              let webhooks := extractWebhooksFromWorkflow workflow in
              let* _ := forEach webhooks (syncWebhooks_insert instance workflow) in
              ret None
          end
      end
  end.

(** ** Workflows ([workflow.go]) *)

(** [getNodeNames] extracts the names of all nodes in a workflow. *)
Definition getNodeNames (nodes : list Node.t) : list string := map Node.Name nodes.

(** [createWorkflowRecord] creates a new record in the workflows
    collection. *)
Definition createWorkflowRecord (instance : Instance.t) (workflow : Workflow.t)
  : WorkflowRecord.t :=
  WorkflowRecord.mk 0%nat
    (Instance.Id instance)
    (Workflow.Name workflow)
    (Workflow.WorkflowID workflow)
    (FormatRFC3339 (Workflow.CreatedAt workflow))
    (FormatRFC3339 (Workflow.UpdatedAt workflow))
    (Z.of_nat (length (Workflow.Nodes workflow)))
    (String.concat "," (getNodeNames (Workflow.Nodes workflow)))
    workflow
    (Workflow.Active workflow).

(** The change test of [syncWorkflows] on the outcome of the lookup. *)
Definition needsUpdate (workflow : Workflow.t)
    (found : result (list WorkflowRecord.t)) : bool :=
  let createdAt := FormatRFC3339 (Workflow.CreatedAt workflow) in
  let updatedAt := FormatRFC3339 (Workflow.UpdatedAt workflow) in
  match found with
  | Ok (existing :: _) =>
      if String.eqb (WorkflowRecord.created_at existing) createdAt
         && String.eqb (WorkflowRecord.updated_at existing) updatedAt
         && Bool.eqb (WorkflowRecord.active existing) (Workflow.Active workflow)
      then false
      else true
  | _ => true
  end.

(** The block under [if needsUpdate]: a failed save is logged and the
    loop goes to the next workflow; a failed webhook sync is logged. *)
Definition syncWorkflows_update (instance : Instance.t) (workflow : Workflow.t) : M unit :=
  let* saved := Save_workflow (createWorkflowRecord instance workflow) in
  match saved with
  | Some _ => ret tt
  | None =>
      let* _ := syncWebhooks instance workflow in
      ret tt
  end.

(** The body of the loop of [syncWorkflows]. *)
Definition syncWorkflows_body (instance : Instance.t) (workflow : Workflow.t) : M unit :=
  let* existingRecords :=
    FindRecordsByFilter (Instance.Id instance) (Workflow.WorkflowID workflow) 1 in
  if needsUpdate workflow existingRecords
  then syncWorkflows_update instance workflow
  else ret tt.

(** [syncWorkflows] synchronizes workflows from an n8n instance to the
    PocketBase database. *)
Definition syncWorkflows (instance : Instance.t) (workflows : list Workflow.t)
  : M (option error) :=
  let* collection := FindCollectionByNameOrId "workflows" in
  match collection with
  | Err e => ret (Some ("failed to find workflows collection: " ++ e)%string)
  | Ok _ =>
      let* _ := forEach workflows (syncWorkflows_body instance) in
      ret None
  end.

(** ** The pass and the tick (cron file) *)

(** [syncInstance] handles the complete sync process for a single
    instance.  The record is changed in place; it is returned with the
    error. *)
Definition syncInstance (instance : Instance.t) (rec : InstanceRecord.t)
  : M (InstanceRecord.t * option error) :=
  let* fetched := GetWorkflows instance in
  match fetched with
  | Err e => ret (rec, Some ("failed to get workflows: " ++ e)%string)
  | Ok workflows =>
      match GetInstanceStats workflows with
      | (_, Some e) =>
          ret (rec, Some ("failed to calculate instance statistics: " ++ e)%string)
      | (stats, None) =>
          let* _ := syncWorkflows instance workflows in
          let* now := time_Now in
          let rec' :=
            InstanceRecord.mk (InstanceRecord.Id rec) (InstanceRecord.host rec)
              (InstanceRecord.api_key rec) (InstanceRecord.ignore_ssl_errors rec)
              (InstanceRecord.check_interval_mins rec)
              now true EmptyString
              (InstanceStats.ActiveWorkflows stats) (InstanceStats.InactiveWorkflows stats)
              (InstanceStats.ActiveWebhooks stats) (InstanceStats.InactiveWebhooks stats) in
          let* saved := Save_instance rec' in
          match saved with
          | Some e => ret (rec', Some ("failed to update instance record: " ++ e)%string)
          | None => ret (rec', None)
          end
      end
  end.

(** The record with the error information of a failed pass. *)
Definition markUnavailable (rec : InstanceRecord.t) (now : Time) (err : error)
  : InstanceRecord.t :=
  InstanceRecord.mk (InstanceRecord.Id rec) (InstanceRecord.host rec)
    (InstanceRecord.api_key rec) (InstanceRecord.ignore_ssl_errors rec)
    (InstanceRecord.check_interval_mins rec)
    now false err
    (InstanceRecord.workflows_active rec) (InstanceRecord.workflows_inactive rec)
    (InstanceRecord.webhooks_active rec) (InstanceRecord.webhooks_inactive rec).

(** The cron job on an instance that is due. *)
Definition checkInstances_run (rec : InstanceRecord.t) : M unit :=
  let instance0 :=
    NewInstance (InstanceRecord.Id rec) (InstanceRecord.host rec)
      (InstanceRecord.api_key rec) in
  let instance :=
    Instance.mk (Instance.Id instance0) (Instance.Host instance0)
      (Instance.APIKey instance0) (InstanceRecord.ignore_ssl_errors rec)
      (InstanceRecord.check_interval_mins rec) in
  let* synced := syncInstance instance rec in
  match synced with
  | (_, None) => ret tt
  | (rec', Some err) =>
      let* now := time_Now in
      let* _ := Save_instance (markUnavailable rec' now err) in
      ret tt
  end.

(** The body of the loop of the cron job. *)
Definition checkInstances_body (rec : InstanceRecord.t) : M unit :=
  let* now := time_Now in
  if negb (shouldCheckInstance now (InstanceRecord.last_check rec)
             (InstanceRecord.check_interval_mins rec))
  then ret tt
  else checkInstances_run rec.

(** The function [InitCronJobs] registers for every minute. *)
Definition checkInstances : M unit :=
  let* found := FindAllRecords_instances in
  match found with
  | Err _ => ret tt
  | Ok records => forEach records checkInstances_body
  end.

End Engine.

(** ** Notions of the specification *)

(** How many elements of a list pass a test. *)
Definition count {A} (p : A -> bool) (l : list A) : Z :=
  Z.of_nat (length (filter (fun x => p x = true) l)).

Definition hasType (ty : string) (node : Node.t) : bool :=
  String.eqb (Node.Type_ node) ty.

Definition nodesOf (workflows : list Workflow.t) : list Node.t :=
  concat (map Workflow.Nodes workflows).

Definition inactive (w : Workflow.t) : bool := negb (Workflow.Active w).

(** The check interval a tick uses: five minutes when none is set. *)
Definition effectiveInterval (checkInterval : Z) : Z :=
  if checkInterval =? 0 then 5 else checkInterval.

(** The largest number of minutes a [time.Duration] holds. *)
Definition maxIntervalMins : Z := 153722867.

(** The credentials of a node as its JSON declares them, in source
    order, and the map [encoding/json] builds from them: a key declared
    twice keeps its last value. *)
Definition decodeCredentials (declared : list (string * NodeCredential.t))
  : gmap string NodeCredential.t :=
  foldl (fun m kv => <[kv.1 := kv.2]> m) ∅ declared.

Definition credentialOf (kv : string * NodeCredential.t) : WebhookCredentials.t :=
  WebhookCredentials.mk kv.1 (NodeCredential.ID kv.2) (NodeCredential.Name kv.2).

(** A [range] order is any enumeration of the entries of the map. *)
Definition rangeOrder (order : gmap string NodeCredential.t -> list (string * NodeCredential.t))
  : Prop :=
  forall m, order m ≡ₚ map_to_list m.

(** The stored snapshots of a key and the one the lookup of
    [syncWorkflows] and [getWorkflowName] takes for the current one. *)
Definition snapshotsOf (app : App) (instance workflow_id : string) : list WorkflowRecord.t :=
  filter (fun r => matchesWorkflow instance workflow_id r = true) (workflows app).

Definition currentSnapshot (app : App) (instance workflow_id : string)
  : option WorkflowRecord.t :=
  head (sortDesc (snapshotsOf app instance workflow_id)).

Definition webhooksOf (app : App) (instance workflow_id : string) : list WebhookRecord.t :=
  filter (fun r => matchesWebhook instance workflow_id r = true) (webhooks app).

(** The triple the change detector compares. *)
Definition sameTriple (workflow : Workflow.t) (stored : WorkflowRecord.t) : Prop :=
  WorkflowRecord.created_at stored = FormatRFC3339 (Workflow.CreatedAt workflow)
  /\ WorkflowRecord.updated_at stored = FormatRFC3339 (Workflow.UpdatedAt workflow)
  /\ WorkflowRecord.active stored = Workflow.Active workflow.

(** Records as the store keeps them, with the ids it hands out from
    [n] on. *)
Fixpoint assignIds (n : nat) (l : list WebhookRecord.t) : list WebhookRecord.t :=
  match l with
  | [] => []
  | r :: l' => withWebhookId n r :: assignIds (S n) l'
  end.

(** The name [getWorkflowName] finds for a key. *)
Definition storedName (app : App) (instance workflow_id : string) : string :=
  match currentSnapshot app instance workflow_id with
  | Some r => WorkflowRecord.workflow_name r
  | None => workflow_id
  end.

(** The store with its fault script replaced, its clock moved. *)
Definition setFaults (fs : list (option error)) (app : App) : App :=
  mkApp (instances app) (workflows app) (webhooks app) (next_id app)
    fs (clock app) (journal app).

Definition setClock (t : Time) (app : App) : App :=
  mkApp (instances app) (workflows app) (webhooks app) (next_id app)
    (faults app) t (journal app).

(** A write call on the workflow or webhook collection. *)
Definition isSnapshotOrWebhookWrite (c : StoreCall) : bool :=
  match c with
  | SaveInstance _ _ => false
  | _ => true
  end.

(** ** File names ([client.go]) *)

Definition isSafeByte (b : ascii) : bool :=
  let n := N_of_ascii b in
  ((97 <=? n) && (n <=? 122) || (65 <=? n) && (n <=? 90) || (48 <=? n) && (n <=? 57)
   || (n =? 45) || (n =? 95))%N.

Definition space : ascii := ascii_of_nat 32.
Definition underscore : ascii := ascii_of_nat 95.
Definition dot : ascii := ascii_of_nat 46.

(** The loop of [cleanString]: letters, digits, [-] and [_] are kept, a
    space becomes [_], every other byte is dropped. *)
Fixpoint cleanBytes (s : bytes) : bytes :=
  match s with
  | [] => []
  | b :: rest =>
      if isSafeByte b then b :: cleanBytes rest
      else if Ascii.eqb b space then underscore :: cleanBytes rest
      else cleanBytes rest
  end.

Definition cleanString (s : string) : string := to_string (cleanBytes (of_string s)).

(** [strings.ReplaceAll] for a non-empty [old]: the occurrences are
    replaced from the left and do not overlap; [skip] counts the bytes
    of an occurrence still to pass. *)
Fixpoint replaceFrom (old new : bytes) (skip : nat) (s : bytes) : bytes :=
  match s with
  | [] => []
  | c :: rest =>
      match skip with
      | S k => replaceFrom old new k rest
      | O =>
          if HasPrefix s old
          then new ++ replaceFrom old new (length old - 1) rest
          else c :: replaceFrom old new 0 rest
      end
  end.

Definition ReplaceAll (s old new : bytes) : bytes := replaceFrom old new 0 s.

Definition CreateFileNameFromHost (s : string) : string :=
  to_string
    (cleanBytes
       (ReplaceAll (ReplaceAll (of_string s) (of_string ".") (of_string "_"))
          (of_string "https://") [])).

(** ** Download of the workflows ([client.go]) *)

(** What one round trip of [GetWorkflow] meets. *)
Inductive FetchOne : Type :=
| OneRequestFailed (e : error)
| OneDoFailed (e : error)
| OneNotOK (status : Z) (body : string)
| OneDecodeFailed (e : error)
| OneDecoded (workflow : Workflow.t).

Record ReplyOne := mkReplyOne { elapsedOne : N; outcomeOne : FetchOne }.

(** The key of a workflow in the map [DownloadWorkflows] returns. *)
Definition fileName (workflow : Workflow.t) : string :=
  ("workflow_" ++ cleanString (Workflow.Name workflow) ++ ".json")%string.

Section Download.

(** The remote instances, as seen through [client.http.Do], on the list
    of the workflows and on the workflow of an id. *)
Variable remote : Instance.t -> Reply.
Variable remoteOne : Instance.t -> string -> ReplyOne.

(** [json.MarshalIndent(fullWorkflow, "", "  ")] *)
Variable MarshalIndent : Workflow.t -> result string.

(** [GetWorkflow] retrieves a specific workflow by ID. *)
Definition GetWorkflow (instance : Instance.t) (id : string) : M (result Workflow.t) :=
  let reply := remoteOne instance id in
  let* _ := elapse (elapsedOne reply) in
  ret match outcomeOne reply with
      | OneRequestFailed e => Err ("error creating request: " ++ e)%string
      | OneDoFailed e => Err ("error making request: " ++ e)%string
      | OneNotOK status body =>
          Err ("API request failed with status " ++ decimal status ++ ": " ++ body)%string
      | OneDecodeFailed e => Err ("error decoding response: " ++ e)%string
      | OneDecoded workflow => Ok (stampInstance (Instance.Id instance) workflow)
      end.

(** The loop of [DownloadWorkflows] over the listed workflows; [files]
    is the map [result]. *)
Fixpoint DownloadWorkflows_loop (instance : Instance.t) (workflows : list Workflow.t)
    (files : gmap string string) : M (result (gmap string string)) :=
  match workflows with
  | [] => ret (Ok files)
  | workflow :: rest =>
      let filename := fileName workflow in
      let* fullWorkflow := GetWorkflow instance (Workflow.ID workflow) in
      match fullWorkflow with
      | Err e =>
          ret (Err ("error downloading workflow " ++ Workflow.ID workflow ++ ": " ++ e)%string)
      | Ok full =>
          match MarshalIndent full with
          | Err e =>
              ret (Err ("error marshaling workflow " ++ Workflow.ID workflow ++ ": " ++ e)%string)
          | Ok jsonData => DownloadWorkflows_loop instance rest (<[filename := jsonData]> files)
          end
      end
  end.

(** [DownloadWorkflows] downloads all workflows and returns them as a
    map of filename to JSON content. *)
Definition DownloadWorkflows (instance : Instance.t) : M (result (gmap string string)) :=
  let* listed := GetWorkflows remote instance in
  match listed with
  | Err e => ret (Err e)
  | Ok workflows => DownloadWorkflows_loop instance workflows ∅
  end.

End Download.

(** ** Notions of the proofs and sample data *)

(** The instance the cron job builds from a record. *)
Definition instanceOf (rec : InstanceRecord.t) : Instance.t :=
  Instance.mk (InstanceRecord.Id rec) (InstanceRecord.host rec)
    (InstanceRecord.api_key rec) (InstanceRecord.ignore_ssl_errors rec)
    (InstanceRecord.check_interval_mins rec).

(** Whether the store accepts its next call. *)
Definition nextAccepted (app : App) : bool :=
  match faults app with
  | Some _ :: _ => false
  | _ => true
  end.

Definition replaceInstance (r : InstanceRecord.t) (rows : list InstanceRecord.t)
  : list InstanceRecord.t :=
  map (fun x => if String.eqb (InstanceRecord.Id x) (InstanceRecord.Id r) then r else x) rows.

Definition deleteRows (rs rows : list WebhookRecord.t) : list WebhookRecord.t :=
  foldl (fun l r => filter (fun x => WebhookRecord.Id x <> WebhookRecord.Id r) l) rows rs.

(** What a webhook sync leaves alone: the workflow rows and the journal
    written so far. *)
Definition keepsSnapshots (app app' : App) : Prop :=
  workflows app' = workflows app
  /\ exists calls, journal app' = journal app ++ calls.

Definition keeps {A} (m : M A) : Prop := forall app, keepsSnapshots app (snd (m app)).

(** The stored snapshot was written: the save of the workflow's record is
    journaled next, and an accepted save adds exactly that record. *)
Definition snapshotWritten (instance : Instance.t) (workflow : Workflow.t)
    (app app' : App) : Prop :=
  exists accepted rest,
    journal app' = journal app
                   ++ SaveWorkflow (createWorkflowRecord instance workflow) accepted :: rest
    /\ workflows app'
       = workflows app
         ++ (if accepted : bool
             then [withWorkflowId (next_id app) (createWorkflowRecord instance workflow)]
             else []).


Definition declaredSample : list (string * NodeCredential.t) :=
  [("httpHeaderAuth"%string, NodeCredential.mk "1" "header key");
   ("httpBasicAuth"%string, NodeCredential.mk "2" "basic login")].

Definition nodeSample : Node.t :=
  Node.mk "n1" "Hook" webhookType (NodeParameters.mk "POST" "orders" "headerAuth" None)
    (decodeCredentials declaredSample) "wh1" "".

Definition workflowSample : Workflow.t :=
  Workflow.mk "" "Orders" "wf1" true 0 0 [nodeSample] "i1".



Definition hookNode : Node.t :=
  Node.mk "n1" "Orders hook" webhookType
    (NodeParameters.mk "POST" "orders" "none" None) ∅ "wh1" "route: /orders".

(** Created 2024-01-01, updated 2024-03-01. *)
Definition remoteWorkflow : Workflow.t :=
  Workflow.mk "" "Orders" "wf1" true (1704067200 * Second) (1709251200 * Second)
    [hookNode] "".

Definition remoteFleet (i : Instance.t) : Reply := mkReply 0 (Decoded [remoteWorkflow]).

Definition fleetRecord : InstanceRecord.t :=
  InstanceRecord.mk "i1" "https://n8n.example" "key" false 5 0 true "" 0 0 0 0.

(** A snapshot of the same key whose created_at text is later than the
    one the remote reports now (2024-06-01). *)
Definition laterSnapshot : WorkflowRecord.t :=
  WorkflowRecord.mk 0 "i1" "Orders" "wf1" "2024-06-01T00:00:00Z" "2024-06-01T00:00:00Z"
    1 "Orders hook" remoteWorkflow true.

(** A snapshot of the same key and creation time, from before the
    update of 2024-03-01. *)
Definition olderVersion : WorkflowRecord.t :=
  WorkflowRecord.mk 0 "i1" "Orders" "wf1" "2024-01-01T00:00:00Z" "2024-02-01T00:00:00Z"
    1 "Orders hook" remoteWorkflow true.

Definition storeWith (rows : list WorkflowRecord.t) : App :=
  mkApp [fleetRecord] rows [] 1 [] (10 * Minute) [].

(** One reconciliation pass of the instance. *)
Definition pass (app : App) : App :=
  snd (syncInstance map_to_list remoteFleet (instanceOf fleetRecord) fleetRecord app).

(** The snapshot and webhook writes of the pass that leads from [app]
    to [app']. *)
Definition writesBetween (app app' : App) : list StoreCall :=
  filter (fun c => isSnapshotOrWebhookWrite c = true)
    (drop (length (journal app)) (journal app')).

(** A store whose fourth call fails: in [syncWebhooks] that is the save
    of the first webhook. *)
Definition saveFailingStore : App :=
  mkApp [fleetRecord] [] [] 1 [None; None; None; Some "disk full"%string] (10 * Minute) [].

(** Two instances, the first unreachable. *)
Definition secondRecord : InstanceRecord.t :=
  InstanceRecord.mk "i2" "https://other.example" "key" false 0 0 false "" 0 0 0 0.

Definition mixedFleet (i : Instance.t) : Reply :=
  if String.eqb (Instance.Id i) "i1"
  then mkReply 30000000000 (DoFailed "i/o timeout")
  else mkReply 0 (Decoded [remoteWorkflow]).

Definition twoInstances : App :=
  mkApp [fleetRecord; secondRecord] [] [] 1 [] (10 * Minute) [].

(** The workflow of the fleet as [GetWorkflows] hands it on. *)
Definition fetchedWorkflow : Workflow.t := stampInstance "i1" remoteWorkflow.

(** A remote that refuses the connection. *)
Definition deadFleet (i : Instance.t) : Reply := mkReply 7 (DoFailed "connection refused").

(** A store whose next call fails. *)
Definition failingStore : App :=
  mkApp [fleetRecord] [] [] 1 [Some "database is locked"%string] (10 * Minute) [].

(** A host name after the scheme: letters, digits, [-], [_] and dots. *)
Definition isHostByte (b : ascii) : bool := isSafeByte b || Ascii.eqb b dot.

Definition dotToUnderscore (b : ascii) : ascii := if Ascii.eqb b dot then underscore else b.

(** How many webhooks the extractor finds in a list of workflows. *)
Definition extractedCount
    (order : gmap string NodeCredential.t -> list (string * NodeCredential.t))
    (workflows : list Workflow.t) : Z :=
  Z.of_nat (length (concat (map (extractWebhooksFromWorkflow order) workflows))).

(** A computation moves the application along a relation. *)
Definition respects (R : App -> App -> Prop) {A} (m : M A) : Prop :=
  forall app, R app (snd (m app)).

(** What no store call and no fetch undoes: the identities of the
    instance rows, the snapshots stored, the journal written, the ids
    handed out, the time passed. *)
Definition evolves (app app' : App) : Prop :=
  map InstanceRecord.Id (instances app') = map InstanceRecord.Id (instances app)
  /\ (exists added, workflows app' = workflows app ++ added)
  /\ (exists calls, journal app' = journal app ++ calls)
  /\ (next_id app <= next_id app')%nat
  /\ clock app <= clock app'.

(** Ids of the rows of a table are distinct and below the next id. *)
Definition uniqueIds (app : App) : Prop :=
  NoDup (map WorkflowRecord.Id (workflows app))
  /\ NoDup (map WebhookRecord.Id (webhooks app))
  /\ Forall (fun r => (WorkflowRecord.Id r < next_id app)%nat) (workflows app)
  /\ Forall (fun r => (WebhookRecord.Id r < next_id app)%nat) (webhooks app).

Definition keepsUniqueIds (app app' : App) : Prop := uniqueIds app -> uniqueIds app'.

(** The fields of an instance row an operator sets. *)
Definition config (r : InstanceRecord.t) : string * string * string * bool * Z :=
  (InstanceRecord.Id r, InstanceRecord.host r, InstanceRecord.api_key r,
   InstanceRecord.ignore_ssl_errors r, InstanceRecord.check_interval_mins r).

Definition sameConfig (app0 app : App) : Prop :=
  map config (instances app) = map config (instances app0).

Definition keepsConfig (app0 app app' : App) : Prop :=
  sameConfig app0 app -> sameConfig app0 app'.

(** Every snapshot and every webhook names an instance of [ids]. *)
Definition references (ids : list string) (app : App) : Prop :=
  Forall (fun r => WorkflowRecord.instance r ∈ ids) (workflows app)
  /\ Forall (fun r => WebhookRecord.instance r ∈ ids) (webhooks app).

Definition keepsReferences (ids : list string) (app app' : App) : Prop :=
  references ids app -> references ids app'.

(** A record that agrees with the rows of its id. *)
Definition agrees (app0 : App) (r : InstanceRecord.t) : Prop :=
  forall x, x ∈ instances app0 -> InstanceRecord.Id x = InstanceRecord.Id r ->
    config x = config r.

(** A row the insert loop of [syncWebhooks] adds for one of [whs], with
    an id from [lo] up to [hi]. *)
Definition insertedBy (instance : Instance.t) (workflow : Workflow.t)
    (app0 : App) (lo hi : nat) (whs : list Webhook.t) (r : WebhookRecord.t) : Prop :=
  exists wh name,
    wh ∈ whs
    /\ (name = storedName app0 (Instance.Id instance) (Workflow.WorkflowID workflow)
        \/ name = Workflow.WorkflowID workflow)
    /\ r = withWebhookId (WebhookRecord.Id r) (webhookRecord instance workflow name wh)
    /\ (lo <= WebhookRecord.Id r < hi)%nat.

(** A stored webhook of the sample workflow and one of another
    instance. *)
Definition staleWebhook : WebhookRecord.t :=
  WebhookRecord.mk 1 "n0" "i1" "wf1" "" "" "Orders" "https://n8n.example/webhook/old"
    ["GET"%string] None "".

Definition otherWebhook : WebhookRecord.t :=
  WebhookRecord.mk 2 "n9" "i2" "wf7" "" "" "Billing" "https://other.example/webhook/bill"
    ["POST"%string] None "".

Definition webhookStore (script : list (option error)) : App :=
  mkApp [fleetRecord] [] [staleWebhook; otherWebhook] 3 script (10 * Minute) [].

(** The instance rows and the clock are left alone. *)
Definition sameInstances (app app' : App) : Prop :=
  instances app' = instances app /\ clock app' = clock app.

(** A snapshot of the sample workflow from an earlier creation. *)
Definition earlierSnapshot : WorkflowRecord.t :=
  WorkflowRecord.mk 0 "i1" "Orders (old)" "wf1" "2023-06-01T00:00:00Z" "2023-07-01T00:00:00Z"
    1 "Orders hook" remoteWorkflow false.

(** The JSON text the loop of [DownloadWorkflows] stores for a listed
    workflow, if the fetch and the marshalling succeed. *)
Definition jsonOf (remoteOne : Instance.t -> string -> ReplyOne)
    (MarshalIndent : Workflow.t -> result string) (instance : Instance.t)
    (workflow : Workflow.t) : option string :=
  match outcomeOne (remoteOne instance (Workflow.ID workflow)) with
  | OneDecoded full =>
      match MarshalIndent (stampInstance (Instance.Id instance) full) with
      | Ok jsonData => Some jsonData
      | Err _ => None
      end
  | _ => None
  end.

Definition storeFile (remoteOne : Instance.t -> string -> ReplyOne)
    (MarshalIndent : Workflow.t -> result string) (instance : Instance.t)
    (files : gmap string string) (workflow : Workflow.t) : gmap string string :=
  match jsonOf remoteOne MarshalIndent instance workflow with
  | Some jsonData => <[fileName workflow := jsonData]> files
  | None => files
  end.

(** The sample workflow half a second after its last update. *)
Definition touchedWorkflow : Workflow.t :=
  Workflow.mk "" "Orders" "wf1" true (1704067200 * Second)
    (1709251200 * Second + 500000000) [hookNode] "".

(** Two workflows whose names clean to the same text, and a third. *)
Definition twinA : Workflow.t :=
  Workflow.mk "" "Orders (v1)" "wf1" true (1704067200 * Second) (1709251200 * Second) [] "".

Definition twinB : Workflow.t :=
  Workflow.mk "" "Orders v1" "wf2" true (1704067200 * Second) (1709251200 * Second) [] "".

Definition billing : Workflow.t :=
  Workflow.mk "" "Billing" "wf3" false (1704067200 * Second) (1709251200 * Second) [] "".

Definition twinFleet (i : Instance.t) : Reply := mkReply 0 (Decoded [twinA; twinB; billing]).

(** A remote that answers every request for a workflow with [twinB],
    as the id of a listed workflow is not decoded. *)
Definition twinDetail (i : Instance.t) (id : string) : ReplyOne :=
  mkReplyOne 0 (OneDecoded twinB).

(** A marshaller that prints the id of the workflow only. *)
Definition idOnly (w : Workflow.t) : result string := Ok (Workflow.WorkflowID w).

Definition twinFiles : gmap string string :=
  <["workflow_Billing.json"%string := "wf2"%string]>
    (<["workflow_Orders_v1.json"%string := "wf2"%string]> ∅).

(** An instance checked two minutes ago, with the interval of five. *)
Definition restedRecord : InstanceRecord.t :=
  InstanceRecord.mk "i1" "https://n8n.example" "key" false 5 (8 * Minute) true "" 0 0 0 0.

Definition restedStore : App :=
  mkApp [restedRecord] [] [] 1 [] (10 * Minute) [].

(** * Properties *)

(** ** Route labels *)

Section RouteLabels.

(** *** Text lemmas *)






Lemma dropCR_cases l :
  dropCR l = l \/ exists l0, l = l0 ++ [CR] /\ dropCR l = l0.
Proof.
  unfold dropCR. destruct (rev l) as [|c r] eqn:E; [left; reflexivity|].
  destruct (Ascii.eqb_spec c CR) as [->|]; [|left; reflexivity].
  right. exists (rev r). split; [|reflexivity].
  rewrite <- (rev_involutive l), E. reflexivity.
Qed.









Lemma Contains_nil : Contains [] routeMarker = false.
Proof. reflexivity. Qed.





End RouteLabels.



(** ** Statistics *)

Section Statistics.

Lemma count_nil {A} (p : A -> bool) : count p [] = 0.
Proof. reflexivity. Qed.

Lemma count_cons {A} (p : A -> bool) x l :
  count p (x :: l) = (if p x then 1 else 0) + count p l.
Proof.
  unfold count. rewrite filter_cons.
  destruct (p x) eqn:E; case_decide; try congruence; simpl length; lia.
Qed.

Lemma count_app {A} (p : A -> bool) l1 l2 :
  count p (l1 ++ l2) = count p l1 + count p l2.
Proof.
  unfold count. rewrite filter_app, length_app. lia.
Qed.

Lemma hasType_exclusive n :
  (hasType webhookType n = true -> hasType redisTriggerType n = false /\ hasType scheduleTriggerType n = false)
  /\ (hasType redisTriggerType n = true -> hasType scheduleTriggerType n = false).
Proof.
  unfold hasType. split.
  - intros H. apply String.eqb_eq in H. rewrite H. split; reflexivity.
  - intros H. apply String.eqb_eq in H. rewrite H. reflexivity.
Qed.

Lemma foldl_countNode active nodes : forall s,
  foldl (countNode active) s nodes =
  InstanceStats.mk
    (InstanceStats.TotalWorkflows s)
    (InstanceStats.ActiveWorkflows s)
    (InstanceStats.InactiveWorkflows s)
    (InstanceStats.TotalWebhooks s + count (hasType webhookType) nodes)
    (InstanceStats.ActiveWebhooks s
     + (if active then count (hasType webhookType) nodes else 0))
    (InstanceStats.InactiveWebhooks s
     + (if active then 0 else count (hasType webhookType) nodes))
    (InstanceStats.RedisTriggers s + count (hasType redisTriggerType) nodes)
    (InstanceStats.ScheduledTriggers s + count (hasType scheduleTriggerType) nodes).
Proof.
  induction nodes as [|n nodes IH]; intros s.
  - destruct s, active; simpl; rewrite !count_nil; f_equal; lia.
  - simpl foldl. rewrite IH. rewrite !count_cons.
    destruct (hasType_exclusive n) as [Hw Hr].
    unfold countNode. fold (hasType webhookType n) (hasType redisTriggerType n)
      (hasType scheduleTriggerType n).
    destruct s. cbn [InstanceStats.TotalWorkflows InstanceStats.ActiveWorkflows
      InstanceStats.InactiveWorkflows InstanceStats.TotalWebhooks
      InstanceStats.ActiveWebhooks InstanceStats.InactiveWebhooks
      InstanceStats.RedisTriggers InstanceStats.ScheduledTriggers].
    destruct (hasType webhookType n) eqn:E1.
    + destruct (Hw eq_refl) as [-> ->]. destruct active; simpl; f_equal; lia.
    + destruct (hasType redisTriggerType n) eqn:E2.
      * rewrite (Hr eq_refl). destruct active; simpl; f_equal; lia.
      * destruct (hasType scheduleTriggerType n); destruct active; simpl; f_equal; lia.
Qed.

Lemma nodesOf_cons w ws : nodesOf (w :: ws) = Workflow.Nodes w ++ nodesOf ws.
Proof. reflexivity. Qed.

Lemma foldl_countWorkflow workflows : forall s,
  foldl countWorkflow s workflows =
  InstanceStats.mk
    (InstanceStats.TotalWorkflows s)
    (InstanceStats.ActiveWorkflows s + count Workflow.Active workflows)
    (InstanceStats.InactiveWorkflows s + count inactive workflows)
    (InstanceStats.TotalWebhooks s + count (hasType webhookType) (nodesOf workflows))
    (InstanceStats.ActiveWebhooks s
     + count (hasType webhookType)
         (nodesOf (filter (fun w => Workflow.Active w = true) workflows)))
    (InstanceStats.InactiveWebhooks s
     + count (hasType webhookType)
         (nodesOf (filter (fun w => inactive w = true) workflows)))
    (InstanceStats.RedisTriggers s + count (hasType redisTriggerType) (nodesOf workflows))
    (InstanceStats.ScheduledTriggers s
     + count (hasType scheduleTriggerType) (nodesOf workflows)).
Proof.
  induction workflows as [|w ws IH]; intros s.
  - destruct s; simpl; unfold nodesOf; simpl; rewrite !count_nil; f_equal; lia.
  - simpl foldl. rewrite IH. clear IH.
    rewrite !filter_cons, !nodesOf_cons, !count_cons, !count_app.
    unfold countWorkflow, inactive. destruct s.
    destruct (Workflow.Active w) eqn:Ea; rewrite foldl_countNode;
      repeat case_decide; try discriminate; try congruence;
      rewrite ?nodesOf_cons, ?count_app; simpl; f_equal; lia.
Qed.

Lemma count_nodesOf_uniform (p : Node.t -> bool) (q : Workflow.t -> bool) k ws :
  Forall (fun w => q w = true -> count p (Workflow.Nodes w) = k) ws ->
  count p (nodesOf (filter (fun w => q w = true) ws)) = k * count q ws.
Proof.
  induction 1 as [|w ws Hw _ IH].
  - unfold nodesOf; simpl. rewrite !count_nil. lia.
  - rewrite filter_cons, count_cons. destruct (q w) eqn:E; case_decide; try congruence.
    + rewrite nodesOf_cons, count_app, IH, Hw by done. lia.
    + rewrite IH. lia.
Qed.

Lemma filter_partition_count (p : Node.t -> bool) ws :
  count p (nodesOf ws) =
  count p (nodesOf (filter (fun w => Workflow.Active w = true) ws))
  + count p (nodesOf (filter (fun w => inactive w = true) ws)).
Proof.
  induction ws as [|w ws IH].
  - reflexivity.
  - rewrite !filter_cons, nodesOf_cons, count_app, IH. unfold inactive.
    destruct (Workflow.Active w); repeat case_decide; try discriminate; try congruence;
      rewrite ?nodesOf_cons, ?count_app; simpl; lia.
Qed.

(** C8: the statistics of a workflow list. *)
Theorem GetInstanceStats_counts (workflows : list Workflow.t) :
  let stats := fst (GetInstanceStats workflows) in
  let webhook := hasType webhookType in
  let activeOnes := filter (fun w => Workflow.Active w = true) workflows in
  let inactiveOnes := filter (fun w => inactive w = true) workflows in
  snd (GetInstanceStats workflows) = None
  /\ InstanceStats.TotalWorkflows stats = Z.of_nat (length workflows)
  /\ InstanceStats.ActiveWorkflows stats = count Workflow.Active workflows
  /\ InstanceStats.InactiveWorkflows stats = count inactive workflows
  /\ InstanceStats.TotalWebhooks stats = count webhook (nodesOf workflows)
  /\ InstanceStats.ActiveWebhooks stats = count webhook (nodesOf activeOnes)
  /\ InstanceStats.InactiveWebhooks stats = count webhook (nodesOf inactiveOnes)
  /\ InstanceStats.RedisTriggers stats = count (hasType redisTriggerType) (nodesOf workflows)
  /\ InstanceStats.ScheduledTriggers stats
     = count (hasType scheduleTriggerType) (nodesOf workflows)
  /\ (count Workflow.Active workflows = 3 ->
      count inactive workflows = 2 ->
      Forall (fun w => Workflow.Active w = true -> count webhook (Workflow.Nodes w) = 2)
        workflows ->
      Forall (fun w => inactive w = true -> count webhook (Workflow.Nodes w) = 1)
        workflows ->
      InstanceStats.ActiveWorkflows stats = 3
      /\ InstanceStats.InactiveWorkflows stats = 2
      /\ InstanceStats.ActiveWebhooks stats = 6
      /\ InstanceStats.InactiveWebhooks stats = 2
      /\ InstanceStats.TotalWebhooks stats = 8).
Proof.
  unfold GetInstanceStats. cbn zeta. cbn [fst snd].
  rewrite foldl_countWorkflow.
  cbn [InstanceStats.TotalWorkflows InstanceStats.ActiveWorkflows
       InstanceStats.InactiveWorkflows InstanceStats.TotalWebhooks
       InstanceStats.ActiveWebhooks InstanceStats.InactiveWebhooks
       InstanceStats.RedisTriggers InstanceStats.ScheduledTriggers].
  repeat match goal with |- _ /\ _ => split end; try lia; try reflexivity.
  intros Ha Hi Fa Fi.
  all: rewrite ?(filter_partition_count (hasType webhookType) workflows).
  all: rewrite ?(count_nodesOf_uniform _ Workflow.Active 2 workflows Fa).
  all: rewrite ?(count_nodesOf_uniform _ inactive 1 workflows Fi).
  all: lia.
Qed.

End Statistics.

(** ** Due-ness *)

Section Dueness.

Lemma wrap64_small z : - 2 ^ 63 <= z < 2 ^ 63 -> wrap64 z = z.
Proof.
  intros H. unfold wrap64. rewrite Z.mod_small by lia. lia.
Qed.

Lemma effectiveInterval_range ci :
  - maxIntervalMins <= ci <= maxIntervalMins ->
  wrap64 (effectiveInterval ci * Minute) = effectiveInterval ci * Minute.
Proof.
  intros H. apply wrap64_small. unfold effectiveInterval, maxIntervalMins, Minute, Second in *.
  destruct (ci =? 0); lia.
Qed.

Lemma shouldCheckInstance_spec now lastCheck ci :
  - maxIntervalMins <= ci <= maxIntervalMins ->
  shouldCheckInstance now lastCheck ci = true
  <-> lastCheck + effectiveInterval ci * Minute < now.
Proof.
  intros H. unfold shouldCheckInstance, After, Add.
  fold (effectiveInterval ci). rewrite effectiveInterval_range by exact H.
  apply Z.ltb_lt.
Qed.

Variable mapRange : gmap string NodeCredential.t -> list (string * NodeCredential.t).
Variable remote : Instance.t -> Reply.

(** C9, as amended: within the range of [time.Duration] an instance is
    processed exactly when the tick's reading of the clock is strictly
    after its last check plus its interval (five minutes for an interval
    of zero), and an instance that is not due leaves the application
    untouched. *)
Theorem due_iff_interval_elapsed (rec : InstanceRecord.t) (app : App) :
  - maxIntervalMins <= InstanceRecord.check_interval_mins rec <= maxIntervalMins ->
  let due :=
    InstanceRecord.last_check rec
    + effectiveInterval (InstanceRecord.check_interval_mins rec) * Minute < clock app in
  (shouldCheckInstance (clock app) (InstanceRecord.last_check rec)
     (InstanceRecord.check_interval_mins rec) = true <-> due)
  /\ (due ->
      checkInstances_body mapRange remote rec app = checkInstances_run mapRange remote rec app)
  /\ (~ due -> checkInstances_body mapRange remote rec app = (tt, app))
  /\ (forall now, shouldCheckInstance now (now - 4 * Minute) 5 = false)
  /\ (forall now, shouldCheckInstance now (now - 6 * Minute) 5 = true).
Proof.
  intros Hrange due.
  pose proof (shouldCheckInstance_spec (clock app) (InstanceRecord.last_check rec)
                (InstanceRecord.check_interval_mins rec) Hrange) as Hspec.
  fold due in Hspec.
  split; [exact Hspec|].
  unfold checkInstances_body, bind, time_Now.
  split; [|split; [|split]].
  - intros Hd. apply Hspec in Hd. rewrite Hd. reflexivity.
  - intros Hd.
    destruct (shouldCheckInstance _ _ _) eqn:E; [|reflexivity].
    exfalso. apply Hd, Hspec. reflexivity.
  - intros now. unfold shouldCheckInstance, After, Add, Minute, Second.
    cbn [Z.eqb]. rewrite wrap64_small by lia. apply Z.ltb_ge. lia.
  - intros now. unfold shouldCheckInstance, After, Add, Minute, Second.
    cbn [Z.eqb]. rewrite wrap64_small by lia. apply Z.ltb_lt. lia.
Qed.

End Dueness.

(** A check interval beyond the range of [time.Duration] wraps around:
    one minute after the last check the instance is due although its
    interval of 153722868 minutes has not elapsed. *)
Lemma due_on_overflow :
  shouldCheckInstance (60 * Second) 0 153722868 = true
  /\ ~ (0 + effectiveInterval 153722868 * Minute < 60 * Second).
Proof.
  split; [vm_compute; reflexivity|].
  vm_compute. discriminate.
Qed.

(** ** Credentials *)

Section Credentials.

Variable order : gmap string NodeCredential.t -> list (string * NodeCredential.t).
Hypothesis order_range : rangeOrder order.

Lemma extractWebhooks_nodes_elem workflow node nodes :
  node ∈ nodes ->
  hasType webhookType node = true ->
  webhookOfNode order workflow node ∈ extractWebhooks_nodes order workflow nodes.
Proof.
  intros Hin Hty. induction Hin as [n l|n m l Hin IH]; simpl.
  - unfold hasType in Hty. rewrite Hty. simpl. left.
  - specialize (IH Hty). destruct (negb _); [exact IH | right; exact IH].
Qed.

Lemma firstCredential_attached node :
  Node.Credentials node <> ∅ ->
  exists ty cred,
    Node.Credentials node !! ty = Some cred
    /\ firstCredential order node = Some (credentialOf (ty, cred)).
Proof.
  intros Hne. unfold firstCredential.
  pose proof (order_range (Node.Credentials node)) as Hperm.
  destruct (order (Node.Credentials node)) as [|[ty cred] rest] eqn:E.
  - exfalso. apply Hne. apply map_to_list_empty_iff.
    apply Permutation_nil. exact Hperm.
  - exists ty, cred. split; [|reflexivity].
    apply elem_of_map_to_list. rewrite <- Hperm. left.
Qed.

(** C5, as amended: a webhook node with credentials yields a webhook
    that keeps exactly one of them, type, id and name of one entry of
    the node's credential map; with a single credential attached it is
    that one. *)
Theorem extracted_credential_is_attached (workflow : Workflow.t) (node : Node.t) :
  node ∈ Workflow.Nodes workflow ->
  hasType webhookType node = true ->
  Node.Credentials node <> ∅ ->
  webhookOfNode order workflow node ∈ extractWebhooksFromWorkflow order workflow
  /\ exists ty cred,
       Node.Credentials node !! ty = Some cred
       /\ Webhook.Credentials (webhookOfNode order workflow node)
          = Some (WebhookCredentials.mk ty (NodeCredential.ID cred) (NodeCredential.Name cred))
       /\ (forall ty0 cred0,
             Node.Credentials node = {[ ty0 := cred0 ]} -> ty = ty0 /\ cred = cred0).
Proof.
  intros Hin Hty Hne. split.
  - apply extractWebhooks_nodes_elem; assumption.
  - destruct (firstCredential_attached node Hne) as (ty & cred & Hlook & Hfirst).
    exists ty, cred. split; [exact Hlook|]. split; [exact Hfirst|].
    intros ty0 cred0 Hsingle. rewrite Hsingle in Hlook.
    apply lookup_singleton_Some in Hlook. destruct Hlook; split; congruence.
Qed.

End Credentials.

Lemma rangeOrder_map_to_list : rangeOrder map_to_list.
Proof. intros m. reflexivity. Qed.

Lemma extracted_credential_is_attached_witness :
  nodeSample ∈ Workflow.Nodes workflowSample
  /\ exists ty cred,
       Node.Credentials nodeSample !! ty = Some cred
       /\ Webhook.Credentials (webhookOfNode map_to_list workflowSample nodeSample)
          = Some (WebhookCredentials.mk ty (NodeCredential.ID cred) (NodeCredential.Name cred)).
Proof.
  split; [left|].
  destruct (extracted_credential_is_attached map_to_list rangeOrder_map_to_list
              workflowSample nodeSample) as (_ & ty & cred & H1 & H2 & _).
  - left.
  - reflexivity.
  - vm_compute. discriminate.
  - exists ty, cred. split; assumption.
Defined.

(** Two credentials declared, the second one kept: the map the
    credentials are decoded into has no source order, and this [range]
    order meets the second declaration first. *)
Lemma first_declared_credential_not_kept :
  rangeOrder map_to_list
  /\ head declaredSample
     = Some ("httpHeaderAuth"%string, NodeCredential.mk "1" "header key")
  /\ map Webhook.Credentials (extractWebhooksFromWorkflow map_to_list workflowSample)
     = [Some (WebhookCredentials.mk "httpBasicAuth" "2" "basic login")].
Proof.
  split; [exact rangeOrder_map_to_list|]. split; [reflexivity|].
  vm_compute. reflexivity.
Qed.

(** ** The store without faults *)

Section QuietStore.

Variable mapRange : gmap string NodeCredential.t -> list (string * NodeCredential.t).

Ltac run := unfold bind, ret, nextOutcome, logCall; cbn.

Lemma take_one_head {A} (l : list A) :
  take 1 l = match head l with Some x => [x] | None => [] end.
Proof. destruct l; reflexivity. Qed.

Lemma FindRecordsByFilter_quiet instance wid app :
  faults app = [] ->
  FindRecordsByFilter instance wid 1 app
  = (Ok match currentSnapshot app instance wid with Some r => [r] | None => [] end, app).
Proof.
  intros Hq. unfold FindRecordsByFilter. run. rewrite Hq.
  rewrite take_one_head. reflexivity.
Qed.

Lemma getWorkflowName_quiet instance wid app :
  faults app = [] ->
  getWorkflowName instance wid app = (storedName app instance wid, app).
Proof.
  intros Hq. unfold getWorkflowName, bind.
  rewrite FindRecordsByFilter_quiet by exact Hq.
  unfold ret, storedName. destruct (currentSnapshot app instance wid); reflexivity.
Qed.

Lemma syncWebhooks_delete_quiet rs : forall app,
  faults app = [] ->
  syncWebhooks_delete rs app
  = (None,
     mkApp (instances app) (workflows app) (deleteRows rs (webhooks app))
       (next_id app) [] (clock app)
       (journal app ++ map (fun r => DeleteWebhook r true) rs)).
Proof.
  induction rs as [|r rs IH]; intros [i w h n f c j] Hq; simpl in Hq; subst f.
  - cbn. rewrite app_nil_r. reflexivity.
  - cbn [syncWebhooks_delete]. unfold bind at 1, Delete_webhook. run.
    rewrite IH by reflexivity. cbn. rewrite <- app_assoc. reflexivity.
Qed.

Lemma syncWebhooks_insert_quiet instance workflow whs : forall app,
  faults app = [] ->
  forEach whs (syncWebhooks_insert instance workflow) app
  = (tt,
     mkApp (instances app) (workflows app)
       (webhooks app
        ++ assignIds (next_id app)
             (map (webhookRecord instance workflow
                     (storedName app (Instance.Id instance) (Workflow.WorkflowID workflow)))
                whs))
       (next_id app + length whs)%nat [] (clock app)
       (journal app
        ++ map (fun wh =>
                  SaveWebhook
                    (webhookRecord instance workflow
                       (storedName app (Instance.Id instance) (Workflow.WorkflowID workflow))
                       wh) true) whs)).
Proof.
  induction whs as [|wh whs IH]; intros [i w h n f c j] Hq; simpl in Hq; subst f.
  - cbn. rewrite !app_nil_r, Nat.add_0_r. reflexivity.
  - cbn [forEach]. unfold bind at 1. unfold syncWebhooks_insert at 1. unfold bind at 1.
    rewrite getWorkflowName_quiet by reflexivity.
    unfold bind at 1, Save_webhook. run.
    rewrite IH by reflexivity.
    unfold storedName, currentSnapshot, snapshotsOf. cbn.
    rewrite <- !app_assoc. cbn.
    rewrite ?Nat.add_succ_r. reflexivity.
Qed.

Lemma syncWebhooks_quiet instance workflow app :
  faults app = [] ->
  let I := Instance.Id instance in
  let W := Workflow.WorkflowID workflow in
  let old := webhooksOf app I W in
  let new := map (webhookRecord instance workflow (storedName app I W))
               (extractWebhooksFromWorkflow mapRange workflow) in
  syncWebhooks mapRange instance workflow app
  = (None,
     mkApp (instances app) (workflows app)
       (deleteRows old (webhooks app) ++ assignIds (next_id app) new)
       (next_id app + length new)%nat [] (clock app)
       (journal app
        ++ map (fun r => DeleteWebhook r true) old
        ++ map (fun r => SaveWebhook r true) new)).
Proof.
  intros Hq I W old new. destruct app as [i w h n f c j]; simpl in Hq; subst f.
  unfold syncWebhooks, FindCollectionByNameOrId, FindAllRecords_webhooks. run.
  rewrite syncWebhooks_delete_quiet by reflexivity. cbn.
  rewrite syncWebhooks_insert_quiet by reflexivity. cbn.
  subst new old I W. unfold webhooksOf, storedName, currentSnapshot, snapshotsOf. cbn.
  rewrite !length_map, <- !app_assoc, map_map. reflexivity.
Qed.

End QuietStore.

(** ** Webhook replacement *)

Section WebhookReplace.

Variable mapRange : gmap string NodeCredential.t -> list (string * NodeCredential.t).

Lemma elem_of_deleteRows rs : forall rows x,
  x ∈ deleteRows rs rows
  <-> x ∈ rows /\ forall r, r ∈ rs -> WebhookRecord.Id x <> WebhookRecord.Id r.
Proof.
  induction rs as [|r rs IH]; intros rows x; simpl.
  - split; [intros H; split; [exact H | intros r Hr; inversion Hr] | intros [H _]; exact H].
  - unfold deleteRows in *. simpl. rewrite IH, list_elem_of_filter. split.
    + intros [[Hne Hin] Hall]. split; [exact Hin|].
      intros r' Hr'. apply elem_of_cons in Hr' as [->|Hr']; [exact Hne | apply Hall, Hr'].
    + intros [Hin Hall]. split; [split; [apply Hall; left | exact Hin]|].
      intros r' Hr'. apply Hall. right. exact Hr'.
Qed.

Lemma filter_none {A} (P : A -> Prop) `{forall x, Decision (P x)} (l : list A) :
  (forall x, x ∈ l -> ~ P x) -> filter P l = [].
Proof.
  induction l as [|x l IH]; intros Hall; [reflexivity|].
  rewrite filter_cons_False by (apply Hall; left).
  apply IH. intros y Hy. apply Hall. right. exact Hy.
Qed.

Lemma filter_all {A} (P : A -> Prop) `{forall x, Decision (P x)} (l : list A) :
  (forall x, x ∈ l -> P x) -> filter P l = l.
Proof.
  induction l as [|x l IH]; intros Hall; [reflexivity|].
  rewrite filter_cons_True by (apply Hall; left).
  f_equal. apply IH. intros y Hy. apply Hall. right. exact Hy.
Qed.

Lemma deleteRows_own_key instance wid rows :
  filter (fun r => matchesWebhook instance wid r = true)
    (deleteRows (filter (fun r => matchesWebhook instance wid r = true) rows) rows) = [].
Proof.
  apply filter_none. intros x Hx Hm.
  apply elem_of_deleteRows in Hx as [Hin Hall].
  apply (Hall x); [|reflexivity].
  apply list_elem_of_filter. split; assumption.
Qed.

Lemma assignIds_elem l : forall n r,
  r ∈ assignIds n l ->
  exists k r0, r0 ∈ l /\ (n <= k)%nat /\ r = withWebhookId k r0.
Proof.
  induction l as [|x l IH]; intros n r Hr; simpl in Hr.
  - inversion Hr.
  - apply elem_of_cons in Hr as [->|Hr].
    + exists n, x. split; [left|]. split; [lia | reflexivity].
    + destruct (IH _ _ Hr) as (k & r0 & Hin & Hk & ->).
      exists k, r0. split; [right; exact Hin|]. split; [lia | reflexivity].
Qed.

Lemma assignIds_covers l : forall n r0,
  r0 ∈ l -> exists k, withWebhookId k r0 ∈ assignIds n l.
Proof.
  induction l as [|x l IH]; intros n r0 Hin.
  - inversion Hin.
  - apply elem_of_cons in Hin as [->|Hin].
    + exists n. left.
    + destruct (IH (S n) r0 Hin) as [k Hk]. exists k. right. exact Hk.
Qed.

Lemma length_assignIds l : forall n, length (assignIds n l) = length l.
Proof. induction l as [|x l IH]; intros n; simpl; [reflexivity | rewrite IH; reflexivity]. Qed.

Lemma extractWebhooks_nodes_inv workflow nodes wh :
  wh ∈ extractWebhooks_nodes mapRange workflow nodes ->
  exists node, node ∈ nodes /\ hasType webhookType node = true
               /\ wh = webhookOfNode mapRange workflow node.
Proof.
  induction nodes as [|n nodes IH]; simpl; intros Hin.
  - inversion Hin.
  - destruct (String.eqb (Node.Type_ n) webhookType) eqn:E; simpl in Hin.
    + apply elem_of_cons in Hin as [->|Hin].
      * exists n. split; [left|]. split; [exact E | reflexivity].
      * destruct (IH Hin) as (node & H1 & H2 & H3).
        exists node. split; [right; exact H1|]. split; assumption.
    + destruct (IH Hin) as (node & H1 & H2 & H3).
      exists node. split; [right; exact H1|]. split; assumption.
Qed.

Lemma webhooksOf_after_sync instance workflow app :
  faults app = [] ->
  let I := Instance.Id instance in
  let W := Workflow.WorkflowID workflow in
  webhooksOf (snd (syncWebhooks mapRange instance workflow app)) I W
  = assignIds (next_id app)
      (map (webhookRecord instance workflow (storedName app I W))
         (extractWebhooksFromWorkflow mapRange workflow)).
Proof.
  intros Hq I W. rewrite (syncWebhooks_quiet mapRange instance workflow app Hq).
  cbn [snd]. unfold webhooksOf. cbn [webhooks].
  rewrite filter_app. fold I W.
  rewrite (deleteRows_own_key I W (webhooks app)), app_nil_l.
  apply filter_all. intros r Hr.
  apply assignIds_elem in Hr as (k & r0 & Hr0 & _ & ->).
  apply list_elem_of_fmap in Hr0 as (wh & -> & _).
  unfold matchesWebhook. cbn. subst I W. rewrite !String.eqb_refl. reflexivity.
Qed.

(** C2: a webhook sync in which no store call fails replaces the stored
    webhooks of the pair by the extracted set: every stored record of
    the pair is deleted first, then one record per extracted webhook is
    saved, and the records of the pair are then exactly these. *)
Theorem syncWebhooks_replaces (instance : Instance.t) (workflow : Workflow.t) (app : App) :
  faults app = [] ->
  let I := Instance.Id instance in
  let W := Workflow.WorkflowID workflow in
  let old := webhooksOf app I W in
  let new := map (webhookRecord instance workflow (storedName app I W))
               (extractWebhooksFromWorkflow mapRange workflow) in
  let app' := snd (syncWebhooks mapRange instance workflow app) in
  fst (syncWebhooks mapRange instance workflow app) = None
  /\ journal app'
     = journal app
       ++ map (fun r => DeleteWebhook r true) old
       ++ map (fun r => SaveWebhook r true) new
  /\ webhooksOf app' I W = assignIds (next_id app) new
  /\ length (webhooksOf app' I W)
     = length (extractWebhooksFromWorkflow mapRange workflow)
  /\ (forall r, r ∈ webhooksOf app' I W -> (next_id app <= WebhookRecord.Id r)%nat).
Proof.
  intros Hq I W old new app'.
  pose proof (webhooksOf_after_sync instance workflow app Hq) as Hset.
  cbn zeta in Hset. fold I W new app' in Hset.
  subst app'. rewrite (syncWebhooks_quiet mapRange instance workflow app Hq) in *.
  cbn [fst snd journal] in *. fold I W old new in Hset |- *.
  split; [reflexivity|]. split; [reflexivity|]. split; [exact Hset|]. split.
  - rewrite Hset, length_assignIds. subst new. apply length_map.
  - intros r Hr. rewrite Hset in Hr.
    apply assignIds_elem in Hr as (k & r0 & _ & Hk & ->). exact Hk.
Qed.

(** C6: after a webhook sync in which no store call fails, the record of
    every webhook node of the workflow holds the instance's host, the
    segment [/webhook/] and the node's path as its URL, and the pair has
    no other records. *)
Theorem webhook_url_from_host (instance : Instance.t) (workflow : Workflow.t) (app : App) :
  faults app = [] ->
  let I := Instance.Id instance in
  let W := Workflow.WorkflowID workflow in
  let app' := snd (syncWebhooks mapRange instance workflow app) in
  let url node :=
    (Instance.Host instance ++ "/webhook/"
     ++ NodeParameters.Path (Node.Parameters node))%string in
  (forall node,
      node ∈ Workflow.Nodes workflow ->
      hasType webhookType node = true ->
      exists r, r ∈ webhooksOf app' I W
                /\ WebhookRecord.node_id r = Node.ID node
                /\ WebhookRecord.webhook_url r = url node)
  /\ (forall r,
        r ∈ webhooksOf app' I W ->
        exists node, node ∈ Workflow.Nodes workflow
                     /\ hasType webhookType node = true
                     /\ WebhookRecord.node_id r = Node.ID node
                     /\ WebhookRecord.webhook_url r = url node).
Proof.
  intros Hq I W app' url.
  pose proof (webhooksOf_after_sync instance workflow app Hq) as Hset.
  cbn zeta in Hset. fold I W app' in Hset. rewrite Hset. split.
  - intros node Hin Hty.
    pose proof (extractWebhooks_nodes_elem mapRange workflow node _ Hin Hty) as Hwh.
    destruct (assignIds_covers
                (map (webhookRecord instance workflow (storedName app I W))
                   (extractWebhooksFromWorkflow mapRange workflow))
                (next_id app)
                (webhookRecord instance workflow (storedName app I W)
                   (webhookOfNode mapRange workflow node))) as [k Hk].
    { apply list_elem_of_fmap. eexists. split; [reflexivity | exact Hwh]. }
    eexists. split; [exact Hk|]. split; reflexivity.
  - intros r Hr. apply assignIds_elem in Hr as (k & r0 & Hr0 & _ & ->).
    apply list_elem_of_fmap in Hr0 as (wh & -> & Hwh).
    apply extractWebhooks_nodes_inv in Hwh as (node & Hin & Hty & ->).
    exists node. split; [exact Hin|]. split; [exact Hty|]. split; reflexivity.
Qed.

End WebhookReplace.

(** ** Change detection *)

Section Frame.

Variable mapRange : gmap string NodeCredential.t -> list (string * NodeCredential.t).

Lemma keepsSnapshots_refl app : keepsSnapshots app app.
Proof. split; [reflexivity | exists []; symmetry; apply app_nil_r]. Qed.

Lemma keepsSnapshots_trans a b c :
  keepsSnapshots a b -> keepsSnapshots b c -> keepsSnapshots a c.
Proof.
  intros [Hw1 [j1 Hj1]] [Hw2 [j2 Hj2]]. split; [congruence|].
  exists (j1 ++ j2). rewrite Hj2, Hj1, app_assoc. reflexivity.
Qed.

Lemma keeps_ret {A} (a : A) : keeps (ret a).
Proof. intros app. apply keepsSnapshots_refl. Qed.

Lemma keeps_bind {A B} (m : M A) (k : A -> M B) :
  keeps m -> (forall a, keeps (k a)) -> keeps (bind m k).
Proof.
  intros Hm Hk app. unfold bind. specialize (Hm app).
  destruct (m app) as [a app1]. cbn [snd] in Hm.
  eapply keepsSnapshots_trans; [exact Hm | apply Hk].
Qed.

Lemma keeps_nextOutcome : keeps nextOutcome.
Proof.
  intros [i w h n f c j]. unfold nextOutcome. cbn.
  destruct f; cbn; (split; [reflexivity | exists []; symmetry; apply app_nil_r]).
Qed.

Lemma keeps_logCall call : keeps (logCall call).
Proof. intros app. split; [reflexivity | exists [call]; reflexivity]. Qed.

Lemma keeps_forEach {A} (body : A -> M unit) l :
  (forall x, keeps (body x)) -> keeps (forEach l body).
Proof.
  intros Hb. induction l as [|x l IH]; [apply keeps_ret|].
  cbn [forEach]. apply keeps_bind; [apply Hb | intros _; exact IH].
Qed.

Ltac keeps_step :=
  first
    [ apply keeps_ret
    | apply keeps_nextOutcome
    | apply keeps_logCall
    | apply keeps_bind; [|intros ?] ].

Lemma keeps_FindCollectionByNameOrId name : keeps (FindCollectionByNameOrId name).
Proof.
  unfold FindCollectionByNameOrId. keeps_step; [keeps_step|].
  destruct a; keeps_step.
Qed.

Lemma keeps_FindRecordsByFilter instance wid limit :
  keeps (FindRecordsByFilter instance wid limit).
Proof.
  unfold FindRecordsByFilter. keeps_step; [keeps_step|].
  destruct a; [keeps_step|]. intros app. apply keepsSnapshots_refl.
Qed.

Lemma keeps_FindAllRecords_webhooks instance wid :
  keeps (FindAllRecords_webhooks instance wid).
Proof.
  unfold FindAllRecords_webhooks. keeps_step; [keeps_step|].
  destruct a; [keeps_step|]. intros app. apply keepsSnapshots_refl.
Qed.

Lemma keeps_Delete_webhook r : keeps (Delete_webhook r).
Proof.
  unfold Delete_webhook. keeps_step; [keeps_step|].
  destruct a; [repeat keeps_step|].
  intros app. split; [reflexivity | eexists; reflexivity].
Qed.

Lemma keeps_Save_webhook r : keeps (Save_webhook r).
Proof.
  unfold Save_webhook. keeps_step; [keeps_step|].
  destruct a; [repeat keeps_step|].
  intros app. split; [reflexivity | eexists; reflexivity].
Qed.

Lemma keeps_syncWebhooks_delete rs : keeps (syncWebhooks_delete rs).
Proof.
  induction rs as [|r rs IH]; [apply keeps_ret|].
  cbn [syncWebhooks_delete]. keeps_step; [apply keeps_Delete_webhook|].
  destruct a; [keeps_step | exact IH].
Qed.

Lemma keeps_syncWebhooks instance workflow :
  keeps (syncWebhooks mapRange instance workflow).
Proof.
  unfold syncWebhooks. keeps_step; [apply keeps_FindCollectionByNameOrId|].
  destruct a; [|keeps_step].
  keeps_step; [apply keeps_FindAllRecords_webhooks|].
  destruct a0; [|keeps_step].
  keeps_step; [apply keeps_syncWebhooks_delete|].
  destruct a1; [keeps_step|].
  keeps_step; [|keeps_step].
  apply keeps_forEach. intros wh. unfold syncWebhooks_insert, getWorkflowName.
  keeps_step; [keeps_step; [apply keeps_FindRecordsByFilter | keeps_step]|].
  keeps_step; [apply keeps_Save_webhook | keeps_step].
Qed.

End Frame.

Section ChangeDetection.

Variable mapRange : gmap string NodeCredential.t -> list (string * NodeCredential.t).


Lemma FindRecordsByFilter_err instance wid limit app e fs :
  faults app = Some e :: fs ->
  FindRecordsByFilter instance wid limit app = (Err e, setFaults fs app).
Proof.
  intros Hf. destruct app as [i w h n f c j]. cbn in Hf. subst f. reflexivity.
Qed.


Lemma Save_workflow_cases r app :
  let saved := Save_workflow r app in
  (exists e, fst saved = Some e
             /\ journal (snd saved) = journal app ++ [SaveWorkflow r false]
             /\ workflows (snd saved) = workflows app)
  \/ (fst saved = None
      /\ journal (snd saved) = journal app ++ [SaveWorkflow r true]
      /\ workflows (snd saved) = workflows app ++ [withWorkflowId (next_id app) r]).
Proof.
  destruct app as [i w h n f c j].
  unfold Save_workflow, bind, nextOutcome, logCall, ret. cbn.
  destruct f as [|[e|] f]; cbn.
  - right. repeat split.
  - left. exists e. repeat split.
  - right. repeat split.
Qed.

(** The block under [if needsUpdate] writes the snapshot. *)
Lemma syncWorkflows_update_writes instance workflow app :
  snapshotWritten instance workflow app
    (snd (syncWorkflows_update mapRange instance workflow app)).
Proof.
  unfold syncWorkflows_update, bind.
  pose proof (Save_workflow_cases (createWorkflowRecord instance workflow) app) as Hs.
  cbn zeta in Hs.
  destruct (Save_workflow (createWorkflowRecord instance workflow) app) as [saved app1].
  cbn [fst snd] in Hs.
  destruct Hs as [(e & -> & Hj & Hw)|(-> & Hj & Hw)].
  - exists false, []. cbn [snd ret]. rewrite Hj, Hw, app_nil_r. split; reflexivity.
  - pose proof (keeps_syncWebhooks mapRange instance workflow app1) as [Hw' [calls Hj']].
    destruct (syncWebhooks mapRange instance workflow app1) as [r app2].
    cbn [snd ret] in *. exists true, calls.
    rewrite Hj', Hw', Hj, Hw, <- app_assoc. split; reflexivity.
Qed.


Lemma snapshotWritten_setFaults instance workflow fs app app' :
  snapshotWritten instance workflow (setFaults fs app) app' ->
  snapshotWritten instance workflow app app'.
Proof. intros H. exact H. Qed.


(** C10: a failed lookup is taken for a change.  The error is dropped,
    the update block runs on whatever the store holds: the snapshot is
    written and, once the store has accepted it, the webhooks are
    replaced, also when a snapshot with the same triple is stored. *)
Theorem lookup_error_forces_update (instance : Instance.t) (workflow : Workflow.t)
    (app : App) (e : error) (fs : list (option error)) :
  faults app = Some e :: fs ->
  let app' := snd (syncWorkflows_body mapRange instance workflow app) in
  let saved := Save_workflow (createWorkflowRecord instance workflow) (setFaults fs app) in
  syncWorkflows_body mapRange instance workflow app
  = syncWorkflows_update mapRange instance workflow (setFaults fs app)
  /\ snapshotWritten instance workflow app app'
  /\ (fst saved = None ->
      app' = snd (syncWebhooks mapRange instance workflow (snd saved)))
  /\ (forall stored,
        currentSnapshot app (Instance.Id instance) (Workflow.WorkflowID workflow)
        = Some stored ->
        sameTriple workflow stored ->
        snapshotWritten instance workflow app app').
Proof.
  intros Hf app' saved.
  assert (Hbody : syncWorkflows_body mapRange instance workflow app
                  = syncWorkflows_update mapRange instance workflow (setFaults fs app)).
  { unfold syncWorkflows_body, bind.
    rewrite (FindRecordsByFilter_err _ _ _ _ _ _ Hf). reflexivity. }
  assert (Hw : snapshotWritten instance workflow app app').
  { subst app'. rewrite Hbody.
    apply snapshotWritten_setFaults with (fs := fs).
    apply syncWorkflows_update_writes. }
  split; [exact Hbody|]. split; [exact Hw|]. split.
  - intros Hsaved. subst app'. rewrite Hbody.
    unfold syncWorkflows_update, bind. fold saved.
    destruct saved as [[err|] app1]; [discriminate|]. cbn [snd].
    destruct (syncWebhooks mapRange instance workflow app1). reflexivity.
  - intros stored _ _. exact Hw.
Qed.

End ChangeDetection.

(** ** Failure isolation *)

Section FailureIsolation.

Variable mapRange : gmap string NodeCredential.t -> list (string * NodeCredential.t).
Variable remote : Instance.t -> Reply.

Lemma GetWorkflows_state instance app :
  snd (GetWorkflows remote instance app)
  = setClock (clock app + Z.of_N (elapsed (remote instance))) app.
Proof. destruct app. reflexivity. Qed.

Lemma Save_instance_run r app :
  let app' := snd (Save_instance r app) in
  journal app' = journal app ++ [SaveInstance r (nextAccepted app)]
  /\ workflows app' = workflows app
  /\ webhooks app' = webhooks app
  /\ instances app'
     = (if nextAccepted app then replaceInstance r (instances app) else instances app).
Proof.
  destruct app as [i w h n f c j].
  unfold Save_instance, bind, nextOutcome, logCall, ret, nextAccepted. cbn.
  destruct f as [|[e|] f]; cbn; repeat split.
Qed.

Lemma failure_note_nonempty e : ("failed to get workflows: " ++ e)%string <> EmptyString.
Proof. discriminate. Qed.

(** C7: a due instance whose fetch fails.  Its record is saved with
    availability_status false, the error text as note and the time of
    the failure as last_check; this save is the only write of the
    instance's turn, so no snapshot and no webhook is written; and the
    loop of the tick goes on with the remaining instances. *)
Theorem fetch_failure_isolated (rec : InstanceRecord.t) (others : list InstanceRecord.t)
    (app : App) (e : error) :
  shouldCheckInstance (clock app) (InstanceRecord.last_check rec)
    (InstanceRecord.check_interval_mins rec) = true ->
  fst (GetWorkflows remote (instanceOf rec) app) = Err e ->
  let note := ("failed to get workflows: " ++ e)%string in
  let failedAt := clock app + Z.of_N (elapsed (remote (instanceOf rec))) in
  let rec' := markUnavailable rec failedAt note in
  let app' := snd (checkInstances_body mapRange remote rec app) in
  InstanceRecord.availability_status rec' = false
  /\ InstanceRecord.availability_note rec' = note
  /\ note <> EmptyString
  /\ InstanceRecord.last_check rec' = failedAt
  /\ clock app <= failedAt
  /\ (0 <= InstanceRecord.check_interval_mins rec <= maxIntervalMins ->
      InstanceRecord.last_check rec < InstanceRecord.last_check rec')
  /\ journal app' = journal app ++ [SaveInstance rec' (nextAccepted app)]
  /\ instances app'
     = (if nextAccepted app then replaceInstance rec' (instances app) else instances app)
  /\ workflows app' = workflows app
  /\ webhooks app' = webhooks app
  /\ forEach (rec :: others) (checkInstances_body mapRange remote) app
     = forEach others (checkInstances_body mapRange remote) app'.
Proof.
  intros Hdue Hfetch note failedAt rec' app'.
  assert (Hrun : checkInstances_body mapRange remote rec app
                 = (let* _ := Save_instance rec' in ret tt) (setClock failedAt app)).
  { unfold checkInstances_body, bind at 1, time_Now. rewrite Hdue. cbn [negb].
    unfold checkInstances_run, syncInstance, bind.
    change (Instance.mk _ _ _ _ _) with (instanceOf rec).
    pose proof (GetWorkflows_state (instanceOf rec) app) as Hst.
    destruct (GetWorkflows remote (instanceOf rec) app) as [res app1].
    cbn [fst snd] in Hfetch, Hst. subst res app1.
    unfold ret, time_Now. cbn. reflexivity. }
  pose proof (Save_instance_run rec' (setClock failedAt app)) as (Hj & Hw & Hh & Hi).
  assert (Happ' : app' = snd (Save_instance rec' (setClock failedAt app))).
  { subst app'. rewrite Hrun. unfold bind, ret.
    destruct (Save_instance rec' (setClock failedAt app)). reflexivity. }
  repeat match goal with |- _ /\ _ => split end.
  - reflexivity.
  - reflexivity.
  - apply failure_note_nonempty.
  - reflexivity.
  - subst failedAt. lia.
  - intros Hrange. cbn [rec' markUnavailable InstanceRecord.last_check].
    assert (Hr : - maxIntervalMins <= InstanceRecord.check_interval_mins rec <= maxIntervalMins)
      by (unfold maxIntervalMins in *; lia).
    apply (shouldCheckInstance_spec _ _ _ Hr) in Hdue.
    subst failedAt. unfold effectiveInterval, Minute, Second in Hdue.
    destruct (InstanceRecord.check_interval_mins rec =? 0) eqn:E; lia.
  - rewrite Happ'. exact Hj.
  - rewrite Happ'. exact Hi.
  - rewrite Happ'. exact Hw.
  - rewrite Happ'. exact Hh.
  - cbn [forEach]. unfold bind at 1. subst app'.
    destruct (checkInstances_body mapRange remote rec app). reflexivity.
Qed.

End FailureIsolation.

(** ** Running a pass twice *)

(** C3 fails on the code: the store holds a snapshot of the key whose
    created_at text sorts after the one the remote reports.  The first
    pass writes a snapshot; the lookup of the second pass, sorted on
    created_at, still returns the old row, so the second pass writes a
    snapshot and replaces the webhooks again. *)
Theorem second_pass_writes_again :
  let app0 := storeWith [laterSnapshot] in
  let app1 := pass app0 in
  let app2 := pass app1 in
  length (workflows app1) = 2%nat
  /\ length (workflows app2) = 3%nat
  /\ currentSnapshot app1 "i1" "wf1" = Some laterSnapshot
  /\ map isSnapshotOrWebhookWrite (writesBetween app1 app2) = [true; true; true]
  /\ exists r old new,
       writesBetween app1 app2
       = [SaveWorkflow r true; DeleteWebhook old true; SaveWebhook new true].
Proof.
  vm_compute. repeat split. eexists _, _, _. reflexivity.
Qed.

(** The same with rows that agree on created_at, as after any update of
    a workflow: rows of equal created_at come out in insertion order and
    the lookup returns the version from before the update. *)
Lemma second_pass_writes_again_on_ties :
  let app0 := storeWith [olderVersion] in
  let app1 := pass app0 in
  let app2 := pass app1 in
  currentSnapshot app1 "i1" "wf1" = Some olderVersion
  /\ length (writesBetween app1 app2) = 3%nat.
Proof. vm_compute. split; reflexivity. Qed.

(** From a store without snapshots the second pass writes nothing. *)
Lemma second_pass_quiet_from_empty :
  let app1 := pass (storeWith []) in
  length (workflows app1) = 1%nat /\ writesBetween app1 (pass app1) = [].
Proof. vm_compute. split; reflexivity. Qed.

(** A failed save of one webhook is skipped: [syncWebhooks] still
    returns no error and the webhook has no record. *)
Lemma syncWebhooks_skips_failed_save :
  let run := syncWebhooks map_to_list (instanceOf fleetRecord)
               (stampInstance "i1" remoteWorkflow) saveFailingStore in
  fst run = None
  /\ webhooksOf (snd run) "i1" "wf1" = []
  /\ exists r, journal (snd run) = [SaveWebhook r false].
Proof. vm_compute. repeat split. eexists. reflexivity. Qed.

(** The tick marks the first instance unavailable and still reconciles
    the second one. *)
Lemma tick_isolates_failure :
  let app' := snd (checkInstances map_to_list mixedFleet twoInstances) in
  map (fun r => (InstanceRecord.Id r, InstanceRecord.availability_status r,
                 InstanceRecord.availability_note r)) (instances app')
  = [("i1"%string, false, "failed to get workflows: error making request: i/o timeout"%string);
     ("i2"%string, true, EmptyString)]
  /\ map WorkflowRecord.instance (workflows app') = ["i2"%string]
  /\ map WebhookRecord.instance (webhooks app') = ["i2"%string].
Proof. vm_compute. repeat split. Qed.

(** ** Instances of the theorems *)


Lemma syncWebhooks_replaces_witness :
  faults (storeWith []) = []
  /\ length (webhooksOf
               (snd (syncWebhooks map_to_list (instanceOf fleetRecord) fetchedWorkflow
                       (storeWith []))) "i1" "wf1") = 1%nat.
Proof.
  split; [reflexivity|].
  exact (proj1 (proj2 (proj2 (proj2
    (syncWebhooks_replaces map_to_list (instanceOf fleetRecord) fetchedWorkflow
       (storeWith []) eq_refl))))).
Defined.

Lemma webhook_url_from_host_witness :
  faults (storeWith []) = []
  /\ exists r,
       r ∈ webhooksOf
             (snd (syncWebhooks map_to_list (instanceOf fleetRecord) fetchedWorkflow
                     (storeWith []))) "i1" "wf1"
       /\ WebhookRecord.node_id r = "n1"%string
       /\ WebhookRecord.webhook_url r = "https://n8n.example/webhook/orders"%string.
Proof.
  split; [reflexivity|].
  apply (proj1 (webhook_url_from_host map_to_list (instanceOf fleetRecord) fetchedWorkflow
                  (storeWith []) eq_refl) hookNode).
  - left.
  - reflexivity.
Defined.

Lemma fetch_failure_isolated_witness :
  shouldCheckInstance (clock (storeWith [])) (InstanceRecord.last_check fleetRecord)
    (InstanceRecord.check_interval_mins fleetRecord) = true
  /\ fst (GetWorkflows deadFleet (instanceOf fleetRecord) (storeWith []))
     = Err "error making request: connection refused"%string
  /\ workflows (snd (checkInstances_body map_to_list deadFleet fleetRecord (storeWith [])))
     = workflows (storeWith []).
Proof.
  assert (Hdue : shouldCheckInstance (clock (storeWith []))
                   (InstanceRecord.last_check fleetRecord)
                   (InstanceRecord.check_interval_mins fleetRecord) = true)
    by (vm_compute; reflexivity).
  assert (Hfetch : fst (GetWorkflows deadFleet (instanceOf fleetRecord) (storeWith []))
                   = Err "error making request: connection refused"%string)
    by reflexivity.
  split; [exact Hdue|]. split; [exact Hfetch|].
  exact (proj1 (proj2 (proj2 (proj2 (proj2 (proj2 (proj2 (proj2 (proj2
    (fetch_failure_isolated map_to_list deadFleet fleetRecord [] (storeWith []) _
       Hdue Hfetch)))))))))).
Defined.

Lemma lookup_error_forces_update_witness :
  faults failingStore = [Some "database is locked"%string]
  /\ snapshotWritten (instanceOf fleetRecord) fetchedWorkflow failingStore
       (snd (syncWorkflows_body map_to_list (instanceOf fleetRecord) fetchedWorkflow
               failingStore)).
Proof.
  split; [reflexivity|].
  exact (proj1 (proj2
    (lookup_error_forces_update map_to_list (instanceOf fleetRecord) fetchedWorkflow
       failingStore _ [] eq_refl))).
Defined.

Lemma due_iff_interval_elapsed_witness :
  (- maxIntervalMins <= InstanceRecord.check_interval_mins fleetRecord <= maxIntervalMins)
  /\ shouldCheckInstance (clock (storeWith [])) (InstanceRecord.last_check fleetRecord)
       (InstanceRecord.check_interval_mins fleetRecord) = true.
Proof.
  assert (H : - maxIntervalMins <= InstanceRecord.check_interval_mins fleetRecord
              <= maxIntervalMins) by (vm_compute; split; discriminate).
  split; [exact H|].
  apply (proj1 (due_iff_interval_elapsed map_to_list remoteFleet fleetRecord
                  (storeWith []) H)).
  vm_compute. reflexivity.
Defined.

(** ** File names *)

Section FileNames.

Lemma of_to_string b : of_string (to_string b) = b.
Proof. apply list_ascii_of_string_of_list_ascii. Qed.

Lemma to_of_string s : to_string (of_string s) = s.
Proof. apply string_of_list_ascii_of_string. Qed.

Lemma length_of_string s : length (of_string s) = String.length s.
Proof. induction s as [|c s IH]; [reflexivity | simpl; rewrite <- IH; reflexivity]. Qed.

Lemma isSafeByte_underscore : isSafeByte underscore = true.
Proof. reflexivity. Qed.

Lemma cleanBytes_safe s : Forall (fun b => isSafeByte b = true) (cleanBytes s).
Proof.
  induction s as [|b s IH]; simpl; [constructor|].
  destruct (isSafeByte b) eqn:E; [constructor; assumption|].
  destruct (Ascii.eqb b space); [constructor; [reflexivity | assumption] | assumption].
Qed.

Lemma cleanBytes_length s : (length (cleanBytes s) <= length s)%nat.
Proof.
  induction s as [|b s IH]; simpl; [lia|].
  destruct (isSafeByte b); [simpl; lia|].
  destruct (Ascii.eqb b space); simpl; lia.
Qed.

Lemma cleanBytes_fixed s :
  Forall (fun b => isSafeByte b = true) s -> cleanBytes s = s.
Proof.
  induction 1 as [|b s Hb _ IH]; [reflexivity|].
  simpl. rewrite Hb, IH. reflexivity.
Qed.

(** X1: [cleanString] yields only letters, digits, [-] and [_], and never a
    longer text than it was given. *)
Theorem cleanString_safe (s : string) :
  Forall (fun b => isSafeByte b = true) (of_string (cleanString s))
  /\ (String.length (cleanString s) <= String.length s)%nat.
Proof.
  unfold cleanString. split.
  - rewrite of_to_string. apply cleanBytes_safe.
  - rewrite <- !length_of_string, of_to_string. apply cleanBytes_length.
Qed.

(** X2: Cleaning a cleaned name changes nothing. *)
Theorem cleanString_idempotent (s : string) :
  cleanString (cleanString s) = cleanString s.
Proof.
  unfold cleanString. rewrite of_to_string.
  rewrite (cleanBytes_fixed _ (cleanBytes_safe _)). reflexivity.
Qed.

Lemma replaceFrom_single c d s :
  replaceFrom [c] [d] 0 s = map (fun x => if Ascii.eqb x c then d else x) s.
Proof.
  induction s as [|x s IH]; [reflexivity|].
  simpl. rewrite andb_true_r, IH. destruct (Ascii.eqb x c); reflexivity.
Qed.

Lemma HasPrefix_head_absent s c sep :
  c ∉ s -> HasPrefix s (c :: sep) = false.
Proof.
  intros Hc. destruct s as [|x s]; [reflexivity|]. simpl.
  destruct (Ascii.eqb_spec x c) as [->|]; [|reflexivity].
  exfalso. apply Hc. left.
Qed.

Lemma replaceFrom_absent c sep new s :
  c ∉ s -> replaceFrom (c :: sep) new 0 s = s.
Proof.
  induction s as [|x s IH]; intros Hc; [reflexivity|].
  cbn [replaceFrom]. rewrite (HasPrefix_head_absent _ _ _ Hc).
  rewrite IH; [reflexivity|]. intros Hin. apply Hc. right. exact Hin.
Qed.

Lemma isHostByte_mapped b :
  isHostByte b = true -> isSafeByte (dotToUnderscore b) = true.
Proof.
  unfold isHostByte, dotToUnderscore. intros H.
  destruct (Ascii.eqb b dot); [reflexivity|].
  rewrite orb_false_r in H. exact H.
Qed.

Lemma HasPrefix_elem sep : forall s c,
  HasPrefix s sep = true -> c ∈ sep -> c ∈ s.
Proof.
  induction sep as [|p ps IH]; intros s c H Hc; [inversion Hc|].
  destruct s as [|x s]; [discriminate|]. simpl in H.
  apply andb_true_iff in H as [Hx H]. apply Ascii.eqb_eq in Hx. subst x.
  apply elem_of_cons in Hc as [->|Hc]; [left | right; eapply IH; eassumption].
Qed.

(** X3: For a host [https://h], [h] made of letters, digits, [-], [_] and
    dots, the file name is [h] with every dot turned into [_]. *)
Theorem CreateFileNameFromHost_https (h : bytes) :
  Forall (fun b => isHostByte b = true) h ->
  CreateFileNameFromHost (to_string (of_string "https://" ++ h))
  = to_string (map dotToUnderscore h).
Proof.
  intros Hh. unfold CreateFileNameFromHost, ReplaceAll. rewrite of_to_string.
  change (of_string ".") with [dot]. change (of_string "_") with [underscore].
  rewrite replaceFrom_single, map_app.
  fold dotToUnderscore.
  assert (Hsafe : Forall (fun b => isSafeByte b = true) (map dotToUnderscore h)).
  { apply Forall_map. eapply Forall_impl; [exact Hh|]. intros b. apply isHostByte_mapped. }
  f_equal.
  set (t := map dotToUnderscore h) in *.
  change (map dotToUnderscore (of_string "https://")) with (of_string "https://").
  assert (Hcut : replaceFrom (of_string "https://") [] 0 (of_string "https://" ++ t)
                 = replaceFrom (of_string "https://") [] 0 t).
  { reflexivity. }
  rewrite Hcut. clear Hcut.
  assert (Hrest : replaceFrom (of_string "https://") [] 0 t = t).
  { induction Hsafe as [|x t Hx Ht IH]; [reflexivity|].
    cbn [replaceFrom].
    destruct (HasPrefix (x :: t) (of_string "https://")) eqn:E.
    - exfalso.
      assert (Hc : ":"%char ∈ x :: t).
      { apply (HasPrefix_elem _ _ _ E). cbn. do 5 right. left. }
      assert (Hall : Forall (fun b => isSafeByte b = true) (x :: t))
        by (constructor; assumption).
      rewrite Forall_forall in Hall. specialize (Hall _ Hc). discriminate.
    - rewrite IH. reflexivity. }
  rewrite Hrest. apply cleanBytes_fixed. exact Hsafe.
Qed.

End FileNames.

(** ** Statistics and the extractor *)

Section StatisticsMore.

Lemma count_nonneg {A} (p : A -> bool) l : 0 <= count p l.
Proof. unfold count. lia. Qed.

Lemma count_split {A} (p : A -> bool) l :
  count p l + count (fun x => negb (p x)) l = Z.of_nat (length l).
Proof.
  induction l as [|x l IH]; [reflexivity|].
  rewrite !count_cons. cbn beta. rewrite length_cons, Nat2Z.inj_succ.
  destruct (p x); cbn [negb]; lia.
Qed.

Lemma count_triggers_bound nodes :
  count (hasType webhookType) nodes + count (hasType redisTriggerType) nodes
  + count (hasType scheduleTriggerType) nodes <= Z.of_nat (length nodes).
Proof.
  induction nodes as [|n nodes IH]; [rewrite !count_nil; cbn; lia|].
  rewrite !count_cons, length_cons, Nat2Z.inj_succ.
  destruct (hasType_exclusive n) as [Hw Hr].
  destruct (hasType webhookType n) eqn:E1.
  - destruct (Hw eq_refl) as [-> ->]. lia.
  - destruct (hasType redisTriggerType n) eqn:E2.
    + rewrite (Hr eq_refl). lia.
    + destruct (hasType scheduleTriggerType n); lia.
Qed.

(** X4: The counters of [GetInstanceStats] are consistent: active and
    inactive workflows add up to the total, active and inactive webhooks
    to the webhook total, no counter is negative, and webhooks and
    triggers together do not exceed the number of nodes. *)
Theorem GetInstanceStats_sums (workflows : list Workflow.t) :
  let stats := fst (GetInstanceStats workflows) in
  InstanceStats.ActiveWorkflows stats + InstanceStats.InactiveWorkflows stats
  = InstanceStats.TotalWorkflows stats
  /\ InstanceStats.ActiveWebhooks stats + InstanceStats.InactiveWebhooks stats
     = InstanceStats.TotalWebhooks stats
  /\ 0 <= InstanceStats.ActiveWorkflows stats
  /\ 0 <= InstanceStats.InactiveWorkflows stats
  /\ 0 <= InstanceStats.ActiveWebhooks stats
  /\ 0 <= InstanceStats.InactiveWebhooks stats
  /\ 0 <= InstanceStats.RedisTriggers stats
  /\ 0 <= InstanceStats.ScheduledTriggers stats
  /\ InstanceStats.TotalWebhooks stats + InstanceStats.RedisTriggers stats
     + InstanceStats.ScheduledTriggers stats
     <= Z.of_nat (length (nodesOf workflows)).
Proof.
  unfold GetInstanceStats. cbn zeta. cbn [fst].
  rewrite foldl_countWorkflow.
  cbn [InstanceStats.TotalWorkflows InstanceStats.ActiveWorkflows
       InstanceStats.InactiveWorkflows InstanceStats.TotalWebhooks
       InstanceStats.ActiveWebhooks InstanceStats.InactiveWebhooks
       InstanceStats.RedisTriggers InstanceStats.ScheduledTriggers].
  pose proof (count_split Workflow.Active workflows) as Hs.
  fold inactive in Hs. change (fun x => negb (Workflow.Active x)) with inactive in Hs.
  pose proof (filter_partition_count (hasType webhookType) workflows) as Hp.
  pose proof (count_triggers_bound (nodesOf workflows)) as Hb.
  pose proof (count_nonneg Workflow.Active workflows).
  pose proof (count_nonneg inactive workflows).
  pose proof (count_nonneg (hasType webhookType)
                (nodesOf (filter (fun w => Workflow.Active w = true) workflows))).
  pose proof (count_nonneg (hasType webhookType)
                (nodesOf (filter (fun w => inactive w = true) workflows))).
  pose proof (count_nonneg (hasType redisTriggerType) (nodesOf workflows)).
  pose proof (count_nonneg (hasType scheduleTriggerType) (nodesOf workflows)).
  repeat match goal with |- _ /\ _ => split end; lia.
Qed.

Variable order : gmap string NodeCredential.t -> list (string * NodeCredential.t).

Lemma extractWebhooks_nodes_count workflow nodes :
  Z.of_nat (length (extractWebhooks_nodes order workflow nodes))
  = count (hasType webhookType) nodes.
Proof.
  induction nodes as [|n nodes IH]; [reflexivity|].
  rewrite count_cons. cbn [extractWebhooks_nodes]. unfold hasType at 1.
  destruct (String.eqb (Node.Type_ n) webhookType); cbn [negb]; rewrite ?length_cons, ?Nat2Z.inj_succ; lia.
Qed.

Lemma extractedCount_nodesOf workflows :
  extractedCount order workflows = count (hasType webhookType) (nodesOf workflows).
Proof.
  unfold extractedCount. induction workflows as [|w ws IH]; [reflexivity|].
  cbn [map concat]. rewrite length_app, nodesOf_cons, count_app, <- IH.
  unfold extractWebhooksFromWorkflow at 1.
  rewrite Nat2Z.inj_add, extractWebhooks_nodes_count. reflexivity.
Qed.

(** X5: The statistics count the webhooks the extractor finds: in total, in
    the active and in the inactive workflows. *)
Theorem stats_count_extracted_webhooks (workflows : list Workflow.t) :
  let stats := fst (GetInstanceStats workflows) in
  InstanceStats.TotalWebhooks stats = extractedCount order workflows
  /\ InstanceStats.ActiveWebhooks stats
     = extractedCount order (filter (fun w => Workflow.Active w = true) workflows)
  /\ InstanceStats.InactiveWebhooks stats
     = extractedCount order (filter (fun w => inactive w = true) workflows).
Proof.
  unfold GetInstanceStats. cbn zeta. cbn [fst].
  rewrite foldl_countWorkflow, !extractedCount_nodesOf.
  cbn [InstanceStats.TotalWebhooks InstanceStats.ActiveWebhooks
       InstanceStats.InactiveWebhooks].
  repeat split; lia.
Qed.

End StatisticsMore.

(** ** What a tick keeps *)

Section Respects.

Variable R : App -> App -> Prop.
Hypothesis R_refl : forall app, R app app.
Hypothesis R_trans : forall a b c, R a b -> R b c -> R a c.
Hypothesis R_nextOutcome : respects R nextOutcome.
Hypothesis R_logCall : forall c, respects R (logCall c).
Hypothesis R_elapse : forall d, respects R (elapse d).
Variable owned : string -> Prop.
Hypothesis R_Save_workflow :
  forall r, owned (WorkflowRecord.instance r) -> respects R (Save_workflow r).
Hypothesis R_Save_webhook :
  forall r, owned (WebhookRecord.instance r) -> respects R (Save_webhook r).
Hypothesis R_Delete_webhook : forall r, respects R (Delete_webhook r).
Variable good : InstanceRecord.t -> Prop.
Hypothesis good_config : forall r r', config r = config r' -> good r -> good r'.
Hypothesis good_owned : forall r, good r -> owned (InstanceRecord.Id r).
Hypothesis R_Save_instance : forall r, good r -> respects R (Save_instance r).

Variable mapRange : gmap string NodeCredential.t -> list (string * NodeCredential.t).
Variable remote : Instance.t -> Reply.

Lemma respects_ret {A} (a : A) : respects R (ret a).
Proof. intros app. apply R_refl. Qed.

Lemma respects_pure {A} (f : App -> A) : respects R (fun app => (f app, app)).
Proof. intros app. apply R_refl. Qed.

Lemma respects_bind {A B} (m : M A) (k : A -> M B) :
  respects R m -> (forall a, respects R (k a)) -> respects R (bind m k).
Proof.
  intros Hm Hk app. unfold bind. specialize (Hm app).
  destruct (m app) as [a app1]. cbn [snd] in Hm.
  eapply R_trans; [exact Hm | apply Hk].
Qed.

Lemma respects_forEach {A} (body : A -> M unit) l :
  (forall x, respects R (body x)) -> respects R (forEach l body).
Proof.
  intros Hb. induction l as [|x l IH]; [apply respects_ret|].
  cbn [forEach]. apply respects_bind; [apply Hb | intros _; exact IH].
Qed.

Ltac step :=
  first
    [ apply respects_ret
    | apply R_nextOutcome
    | apply R_logCall
    | apply R_elapse
    | apply R_Delete_webhook
    | apply respects_pure
    | apply respects_bind; [|intros ?] ].

Lemma respects_FindCollectionByNameOrId name : respects R (FindCollectionByNameOrId name).
Proof. unfold FindCollectionByNameOrId. step; [step|]. destruct a; step. Qed.

Lemma respects_FindRecordsByFilter instance wid limit :
  respects R (FindRecordsByFilter instance wid limit).
Proof. unfold FindRecordsByFilter. step; [step|]. destruct a; step. Qed.

Lemma respects_FindAllRecords_webhooks instance wid :
  respects R (FindAllRecords_webhooks instance wid).
Proof. unfold FindAllRecords_webhooks. step; [step|]. destruct a; step. Qed.

Lemma respects_FindAllRecords_instances : respects R FindAllRecords_instances.
Proof. unfold FindAllRecords_instances. step; [step|]. destruct a; step. Qed.

Lemma respects_getWorkflowName instance wid : respects R (getWorkflowName instance wid).
Proof. unfold getWorkflowName. step; [apply respects_FindRecordsByFilter | step]. Qed.

Lemma respects_syncWebhooks_delete rs : respects R (syncWebhooks_delete rs).
Proof.
  induction rs as [|r rs IH]; [apply respects_ret|].
  cbn [syncWebhooks_delete]. step; [step|]. destruct a; [step | exact IH].
Qed.

Lemma respects_syncWebhooks instance workflow :
  owned (Instance.Id instance) -> respects R (syncWebhooks mapRange instance workflow).
Proof.
  intros Hown. unfold syncWebhooks. step; [apply respects_FindCollectionByNameOrId|].
  destruct a; [|step].
  step; [apply respects_FindAllRecords_webhooks|].
  destruct a0; [|step].
  step; [apply respects_syncWebhooks_delete|].
  destruct a1; [step|].
  step; [|step].
  apply respects_forEach. intros wh. unfold syncWebhooks_insert.
  step; [apply respects_getWorkflowName|].
  step; [apply R_Save_webhook; exact Hown | step].
Qed.

Lemma respects_syncWorkflows_body instance workflow :
  owned (Instance.Id instance) ->
  respects R (syncWorkflows_body mapRange instance workflow).
Proof.
  intros Hown. unfold syncWorkflows_body. step; [apply respects_FindRecordsByFilter|].
  destruct (needsUpdate workflow a); [|step].
  unfold syncWorkflows_update. step; [apply R_Save_workflow; exact Hown|].
  destruct a0; [step|]. step; [apply respects_syncWebhooks, Hown | step].
Qed.

Lemma respects_syncWorkflows instance workflows :
  owned (Instance.Id instance) ->
  respects R (syncWorkflows mapRange instance workflows).
Proof.
  intros Hown. unfold syncWorkflows. step; [apply respects_FindCollectionByNameOrId|].
  destruct a; [|step].
  step; [|step]. apply respects_forEach. intros w. apply respects_syncWorkflows_body, Hown.
Qed.

Lemma respects_GetWorkflows instance : respects R (GetWorkflows remote instance).
Proof.
  unfold GetWorkflows. cbv zeta.
  apply respects_bind; [apply R_elapse | intros _; apply respects_ret].
Qed.

Lemma syncInstance_config instance rec app :
  config (fst (fst (syncInstance mapRange remote instance rec app))) = config rec.
Proof.
  unfold syncInstance, bind.
  destruct (GetWorkflows remote instance app) as [[ws|e] app1]; [|reflexivity].
  destruct (GetInstanceStats ws) as [stats [e|]]; [reflexivity|].
  destruct (syncWorkflows mapRange instance ws app1) as [o app2].
  unfold time_Now.
  match goal with |- context [Save_instance ?r app2] =>
    destruct (Save_instance r app2) as [[e|] app3] end; reflexivity.
Qed.

Lemma respects_syncInstance instance rec :
  good rec -> owned (Instance.Id instance) ->
  respects R (syncInstance mapRange remote instance rec).
Proof.
  intros Hg Hown. unfold syncInstance. step; [apply respects_GetWorkflows|].
  destruct a; [|step].
  destruct (GetInstanceStats a) as [stats [e|]]; [step|].
  step; [apply respects_syncWorkflows, Hown|].
  step; [unfold time_Now; step|].
  step; [apply R_Save_instance; revert Hg; apply good_config; reflexivity|].
  destruct a2; step.
Qed.

Lemma respects_checkInstances_body rec :
  good rec -> respects R (checkInstances_body mapRange remote rec).
Proof.
  intros Hg. unfold checkInstances_body. step; [unfold time_Now; step|].
  destruct (negb _); [step|].
  unfold checkInstances_run. cbv zeta.
  intros app. unfold bind.
  match goal with |- context [syncInstance mapRange remote ?i rec app] =>
    pose proof (respects_syncInstance i rec Hg (good_owned rec Hg) app) as Hs;
    pose proof (syncInstance_config i rec app) as Hc;
    destruct (syncInstance mapRange remote i rec app) as [[rec' o] app1] end.
  cbn [fst snd] in Hs, Hc. destruct o as [err|]; [|exact Hs].
  unfold time_Now.
  match goal with |- context [Save_instance ?r app1] =>
    assert (Hr : good r) by (revert Hg; apply good_config; rewrite <- Hc; reflexivity);
    pose proof (R_Save_instance r Hr app1) as Hsv;
    destruct (Save_instance r app1) as [o2 app2] end.
  cbn [snd] in Hsv |- *. eapply R_trans; eassumption.
Qed.

Lemma respects_checkInstances_loop records :
  Forall good records ->
  respects R (forEach records (checkInstances_body mapRange remote)).
Proof.
  induction 1 as [|rec records Hg _ IH]; [apply respects_ret|].
  cbn [forEach]. apply respects_bind; [apply respects_checkInstances_body, Hg | intros _; exact IH].
Qed.

Lemma respects_checkInstances :
  (forall r, good r) -> respects R (checkInstances mapRange remote).
Proof.
  intros Hall. unfold checkInstances. step; [apply respects_FindAllRecords_instances|].
  destruct a; [|step]. apply respects_checkInstances_loop.
  apply Forall_forall. intros; apply Hall.
Qed.

End Respects.

Section TickInvariants.

Variable mapRange : gmap string NodeCredential.t -> list (string * NodeCredential.t).
Variable remote : Instance.t -> Reply.

Lemma evolves_refl app : evolves app app.
Proof.
  repeat split; try reflexivity; try lia; exists []; symmetry; apply app_nil_r.
Qed.

Lemma evolves_trans a b c : evolves a b -> evolves b c -> evolves a c.
Proof.
  intros (Hi1 & [w1 Hw1] & [j1 Hj1] & Hn1 & Hc1) (Hi2 & [w2 Hw2] & [j2 Hj2] & Hn2 & Hc2).
  repeat split.
  - congruence.
  - exists (w1 ++ w2). rewrite Hw2, Hw1, app_assoc. reflexivity.
  - exists (j1 ++ j2). rewrite Hj2, Hj1, app_assoc. reflexivity.
  - lia.
  - lia.
Qed.

Ltac same := reflexivity || lia || (exists []; symmetry; apply app_nil_r) || (eexists; reflexivity).

Lemma evolves_nextOutcome : respects evolves nextOutcome.
Proof.
  intros [i w h n f c j]. unfold nextOutcome. cbn.
  destruct f; cbn; repeat split; cbn; same.
Qed.

Lemma evolves_logCall c : respects evolves (logCall c).
Proof. intros app. unfold logCall. repeat split; cbn; same. Qed.

Lemma evolves_elapse d : respects evolves (elapse d).
Proof. intros app. unfold elapse. repeat split; cbn; same. Qed.

Lemma evolves_Save_workflow r : respects evolves (Save_workflow r).
Proof.
  unfold Save_workflow.
  apply respects_bind; [apply evolves_trans | apply evolves_nextOutcome |].
  intros [err|].
  - apply respects_bind; [apply evolves_trans | apply evolves_logCall |].
    intros _ app. apply evolves_refl.
  - intros app. repeat split; cbn; same.
Qed.

Lemma evolves_Save_webhook r : respects evolves (Save_webhook r).
Proof.
  unfold Save_webhook.
  apply respects_bind; [apply evolves_trans | apply evolves_nextOutcome |].
  intros [err|].
  - apply respects_bind; [apply evolves_trans | apply evolves_logCall |].
    intros _ app. apply evolves_refl.
  - intros app. repeat split; cbn; same.
Qed.

Lemma evolves_Delete_webhook r : respects evolves (Delete_webhook r).
Proof.
  unfold Delete_webhook.
  apply respects_bind; [apply evolves_trans | apply evolves_nextOutcome |].
  intros [err|].
  - apply respects_bind; [apply evolves_trans | apply evolves_logCall |].
    intros _ app. apply evolves_refl.
  - intros app. repeat split; cbn; same.
Qed.

Lemma map_Id_replace r l :
  map InstanceRecord.Id
    (map (fun x => if String.eqb (InstanceRecord.Id x) (InstanceRecord.Id r) then r else x) l)
  = map InstanceRecord.Id l.
Proof.
  induction l as [|x l IH]; [reflexivity|]. cbn [map]. rewrite IH. f_equal.
  destruct (String.eqb (InstanceRecord.Id x) (InstanceRecord.Id r)) eqn:E; [|reflexivity].
  apply String.eqb_eq in E. congruence.
Qed.

Lemma evolves_Save_instance r : respects evolves (Save_instance r).
Proof.
  unfold Save_instance.
  apply respects_bind; [apply evolves_trans | apply evolves_nextOutcome |].
  intros [err|].
  - apply respects_bind; [apply evolves_trans | apply evolves_logCall |].
    intros _ app. apply evolves_refl.
  - intros app. repeat split; cbn; try same. apply map_Id_replace.
Qed.

Lemma checkInstances_moves_on app : evolves app (snd (checkInstances mapRange remote app)).
Proof.
  apply (respects_checkInstances evolves) with (owned := fun _ => True) (good := fun _ => True);
    first [ exact evolves_refl | exact evolves_trans | exact evolves_nextOutcome
          | exact evolves_elapse | exact evolves_Delete_webhook
          | intros; apply evolves_Save_workflow | intros; apply evolves_Save_webhook
          | intros; apply evolves_Save_instance | auto ].
Qed.

(** X6: whatever the remote instances answer and whichever store calls
    fail, a tick keeps the instance rows and their order (by id), only
    appends to the stored snapshots and to the journal, never reuses a
    record id and never turns the clock back. *)
Theorem checkInstances_evolves app :
  map InstanceRecord.Id (instances (snd (checkInstances mapRange remote app)))
    = map InstanceRecord.Id (instances app)
  /\ (exists added,
        workflows (snd (checkInstances mapRange remote app)) = workflows app ++ added)
  /\ (exists calls,
        journal (snd (checkInstances mapRange remote app)) = journal app ++ calls)
  /\ (next_id app <= next_id (snd (checkInstances mapRange remote app)))%nat
  /\ clock app <= clock (snd (checkInstances mapRange remote app)).
Proof. exact (checkInstances_moves_on app). Qed.

Lemma keepsUniqueIds_refl app : keepsUniqueIds app app.
Proof. intros H; exact H. Qed.

Lemma keepsUniqueIds_trans a b c :
  keepsUniqueIds a b -> keepsUniqueIds b c -> keepsUniqueIds a c.
Proof. unfold keepsUniqueIds. auto. Qed.

Lemma uniqueIds_nextOutcome : respects keepsUniqueIds nextOutcome.
Proof.
  intros [i w h n f c j]. unfold nextOutcome. cbn.
  destruct f; cbn; intros H; exact H.
Qed.

Lemma uniqueIds_logCall c : respects keepsUniqueIds (logCall c).
Proof. intros app H. exact H. Qed.

Lemma uniqueIds_elapse d : respects keepsUniqueIds (elapse d).
Proof. intros app H. exact H. Qed.

Lemma NoDup_snoc_fresh {A} (f : A -> nat) (l : list A) (x : A) (n : nat) :
  NoDup (map f l) -> Forall (fun r => (f r < n)%nat) l -> f x = n ->
  NoDup (map f (l ++ [x])).
Proof.
  intros Hd Hb Hx. rewrite map_app. apply NoDup_app. split; [exact Hd|]. split.
  - intros y Hy Hin. cbn in Hin. apply elem_of_cons in Hin as [->|Hin]; [|inversion Hin].
    apply list_elem_of_fmap_1 in Hy as (r & Hr & Hin).
    rewrite Forall_forall in Hb. specialize (Hb r Hin). cbn beta in Hb. lia.
  - cbn. apply NoDup_singleton.
Qed.

Lemma Forall_lt_S {A} (f : A -> nat) (l : list A) (n : nat) :
  Forall (fun r => (f r < n)%nat) l -> Forall (fun r => (f r < S n)%nat) l.
Proof. intros H. eapply Forall_impl; [exact H|]. cbn beta. intros; lia. Qed.

Lemma uniqueIds_Save_workflow r : respects keepsUniqueIds (Save_workflow r).
Proof.
  unfold Save_workflow.
  apply respects_bind; [apply keepsUniqueIds_trans | apply uniqueIds_nextOutcome |].
  intros [err|].
  - intros app H. exact H.
  - intros app (Hw & Hh & Hbw & Hbh). unfold uniqueIds. cbn.
    repeat match goal with |- _ /\ _ => split end; cbn.
    + eapply NoDup_snoc_fresh; [exact Hw | exact Hbw | reflexivity].
    + exact Hh.
    + apply Forall_app. split; [apply Forall_lt_S, Hbw|].
      apply Forall_cons. split; [cbn; lia | apply Forall_nil; exact I].
    + apply Forall_lt_S, Hbh.
Qed.

Lemma uniqueIds_Save_webhook r : respects keepsUniqueIds (Save_webhook r).
Proof.
  unfold Save_webhook.
  apply respects_bind; [apply keepsUniqueIds_trans | apply uniqueIds_nextOutcome |].
  intros [err|].
  - intros app H. exact H.
  - intros app (Hw & Hh & Hbw & Hbh). unfold uniqueIds. cbn.
    repeat match goal with |- _ /\ _ => split end; cbn.
    + exact Hw.
    + eapply NoDup_snoc_fresh; [exact Hh | exact Hbh | reflexivity].
    + apply Forall_lt_S, Hbw.
    + apply Forall_app. split; [apply Forall_lt_S, Hbh|].
      apply Forall_cons. split; [cbn; lia | apply Forall_nil; exact I].
Qed.

Lemma uniqueIds_Delete_webhook r : respects keepsUniqueIds (Delete_webhook r).
Proof.
  unfold Delete_webhook.
  apply respects_bind; [apply keepsUniqueIds_trans | apply uniqueIds_nextOutcome |].
  intros [err|].
  - intros app H. exact H.
  - intros app (Hw & Hh & Hbw & Hbh). unfold uniqueIds. cbn.
    repeat match goal with |- _ /\ _ => split end; cbn.
    + exact Hw.
    + eapply sublist_NoDup; [exact Hh|]. apply fmap_sublist, sublist_filter.
    + exact Hbw.
    + rewrite Forall_forall in Hbh |- *. intros x Hx.
      apply list_elem_of_filter in Hx as [_ Hx]. apply Hbh, Hx.
Qed.

Lemma uniqueIds_Save_instance r : respects keepsUniqueIds (Save_instance r).
Proof.
  unfold Save_instance.
  apply respects_bind; [apply keepsUniqueIds_trans | apply uniqueIds_nextOutcome |].
  intros [err|]; intros app H; exact H.
Qed.

(** X7: a tick keeps the store well formed: if the ids of the snapshot
    rows and of the webhook rows are distinct and below the next id
    before it, they are after it, whatever is fetched and whichever
    store calls fail. *)
Theorem checkInstances_keeps_unique_ids app :
  uniqueIds app -> uniqueIds (snd (checkInstances mapRange remote app)).
Proof.
  apply (respects_checkInstances keepsUniqueIds)
    with (owned := fun _ => True) (good := fun _ => True);
    first [ exact keepsUniqueIds_refl | exact keepsUniqueIds_trans
          | exact uniqueIds_nextOutcome | exact uniqueIds_elapse
          | exact uniqueIds_Delete_webhook
          | intros; apply uniqueIds_Save_workflow | intros; apply uniqueIds_Save_webhook
          | intros; apply uniqueIds_Save_instance | auto ].
Qed.

Lemma keepsConfig_refl app0 app : keepsConfig app0 app app.
Proof. intros H; exact H. Qed.

Lemma keepsConfig_trans app0 a b c :
  keepsConfig app0 a b -> keepsConfig app0 b c -> keepsConfig app0 a c.
Proof. unfold keepsConfig. auto. Qed.

Lemma config_nextOutcome app0 : respects (keepsConfig app0) nextOutcome.
Proof.
  intros [i w h n f c j]. unfold nextOutcome. cbn.
  destruct f; cbn; intros H; exact H.
Qed.

Lemma config_elapse app0 d : respects (keepsConfig app0) (elapse d).
Proof. intros app H. exact H. Qed.

Lemma config_Save_workflow app0 r : respects (keepsConfig app0) (Save_workflow r).
Proof.
  unfold Save_workflow.
  apply respects_bind; [apply keepsConfig_trans | apply config_nextOutcome |].
  intros [err|]; intros app H; exact H.
Qed.

Lemma config_Save_webhook app0 r : respects (keepsConfig app0) (Save_webhook r).
Proof.
  unfold Save_webhook.
  apply respects_bind; [apply keepsConfig_trans | apply config_nextOutcome |].
  intros [err|]; intros app H; exact H.
Qed.

Lemma config_Delete_webhook app0 r : respects (keepsConfig app0) (Delete_webhook r).
Proof.
  unfold Delete_webhook.
  apply respects_bind; [apply keepsConfig_trans | apply config_nextOutcome |].
  intros [err|]; intros app H; exact H.
Qed.

Lemma config_Id r r' : config r = config r' -> InstanceRecord.Id r = InstanceRecord.Id r'.
Proof. unfold config. intros H. congruence. Qed.

Lemma agrees_config app0 r r' : config r = config r' -> agrees app0 r -> agrees app0 r'.
Proof.
  intros Hc Ha x Hx Hid. rewrite <- Hc. apply Ha; [exact Hx|].
  rewrite (config_Id _ _ Hc). exact Hid.
Qed.

Lemma map_config_replace r l :
  (forall x, x ∈ l -> InstanceRecord.Id x = InstanceRecord.Id r -> config x = config r) ->
  map config
    (map (fun x => if String.eqb (InstanceRecord.Id x) (InstanceRecord.Id r) then r else x) l)
  = map config l.
Proof.
  induction l as [|x l IH]; intros H; [reflexivity|]. cbn [map].
  rewrite IH by (intros y Hy; apply H; apply elem_of_cons; right; exact Hy).
  f_equal.
  destruct (String.eqb (InstanceRecord.Id x) (InstanceRecord.Id r)) eqn:E; [|reflexivity].
  apply String.eqb_eq in E. symmetry. apply H; [apply elem_of_cons; left; reflexivity | exact E].
Qed.

Lemma config_Save_instance app0 r :
  agrees app0 r -> respects (keepsConfig app0) (Save_instance r).
Proof.
  intros Ha. unfold Save_instance.
  apply respects_bind; [apply keepsConfig_trans | apply config_nextOutcome |].
  intros [err|]; [intros app H; exact H|].
  intros app H. unfold sameConfig in *. cbn. rewrite <- H.
  apply map_config_replace. intros x Hx Hid.
  apply (list_elem_of_fmap_2 config) in Hx. change (config x ∈ map config (instances app)) in Hx.
  rewrite H in Hx. apply list_elem_of_fmap_1 in Hx as (x0 & Hc & Hx0).
  rewrite Hc. apply Ha; [exact Hx0|]. rewrite <- (config_Id _ _ Hc). exact Hid.
Qed.

Lemma NoDup_map_inj {A B} (f : A -> B) (l : list A) x y :
  NoDup (map f l) -> x ∈ l -> y ∈ l -> f x = f y -> x = y.
Proof.
  induction l as [|a l IH]; cbn [map]; intros Hd Hx Hy Hf; [inversion Hx|].
  apply NoDup_cons in Hd as [Hn Hd].
  apply elem_of_cons in Hx as [->|Hx]; apply elem_of_cons in Hy as [->|Hy].
  - reflexivity.
  - exfalso. apply Hn. rewrite Hf. apply (list_elem_of_fmap_2 f), Hy.
  - exfalso. apply Hn. rewrite <- Hf. apply (list_elem_of_fmap_2 f), Hx.
  - apply IH; assumption.
Qed.

(** X8: a tick never changes what the operator configured.  When the
    ids of the instance rows are distinct, every row has the same id,
    host, API key, SSL flag and check interval after the tick as before
    it, whatever is fetched and whichever store calls fail. *)
Theorem checkInstances_keeps_configuration app :
  NoDup (map InstanceRecord.Id (instances app)) ->
  map config (instances (snd (checkInstances mapRange remote app)))
  = map config (instances app).
Proof.
  intros Hd. unfold checkInstances, FindAllRecords_instances, bind.
  pose proof (config_nextOutcome app app) as H1.
  assert (Hi : instances (snd (nextOutcome app)) = instances app).
  { destruct app as [i w h n f c j]. unfold nextOutcome. cbn. destruct f; reflexivity. }
  destruct (nextOutcome app) as [[e|] app1]; cbn [snd] in *.
  - cbn. rewrite Hi. reflexivity.
  - cbn [fst snd].
    apply (respects_checkInstances_loop (keepsConfig app))
      with (owned := fun _ => True) (good := agrees app).
    + apply keepsConfig_refl.
    + apply keepsConfig_trans.
    + apply config_nextOutcome.
    + apply config_elapse.
    + intros; apply config_Save_workflow.
    + intros; apply config_Save_webhook.
    + apply config_Delete_webhook.
    + apply agrees_config.
    + auto.
    + apply config_Save_instance.
    + rewrite Hi. apply Forall_forall. intros r Hr x Hx Hid.
      f_equal. eapply NoDup_map_inj; eassumption.
    + apply H1. reflexivity.
Qed.

Lemma keepsReferences_refl ids app : keepsReferences ids app app.
Proof. intros H; exact H. Qed.

Lemma keepsReferences_trans ids a b c :
  keepsReferences ids a b -> keepsReferences ids b c -> keepsReferences ids a c.
Proof. unfold keepsReferences. auto. Qed.

Lemma references_nextOutcome ids : respects (keepsReferences ids) nextOutcome.
Proof.
  intros [i w h n f c j]. unfold nextOutcome. cbn.
  destruct f; cbn; intros H; exact H.
Qed.

Lemma references_elapse ids d : respects (keepsReferences ids) (elapse d).
Proof. intros app H. exact H. Qed.

Lemma references_Save_workflow ids r :
  WorkflowRecord.instance r ∈ ids -> respects (keepsReferences ids) (Save_workflow r).
Proof.
  intros Hr. unfold Save_workflow.
  apply respects_bind; [apply keepsReferences_trans | apply references_nextOutcome |].
  intros [err|]; [intros app H; exact H|].
  intros app [Hw Hh]. split; cbn; [|exact Hh].
  apply Forall_app. split; [exact Hw|].
  apply Forall_cons. split; [exact Hr | constructor].
Qed.

Lemma references_Save_webhook ids r :
  WebhookRecord.instance r ∈ ids -> respects (keepsReferences ids) (Save_webhook r).
Proof.
  intros Hr. unfold Save_webhook.
  apply respects_bind; [apply keepsReferences_trans | apply references_nextOutcome |].
  intros [err|]; [intros app H; exact H|].
  intros app [Hw Hh]. split; cbn; [exact Hw|].
  apply Forall_app. split; [exact Hh|].
  apply Forall_cons. split; [exact Hr | constructor].
Qed.

Lemma references_Delete_webhook ids r : respects (keepsReferences ids) (Delete_webhook r).
Proof.
  unfold Delete_webhook.
  apply respects_bind; [apply keepsReferences_trans | apply references_nextOutcome |].
  intros [err|]; [intros app H; exact H|].
  intros app [Hw Hh]. split; cbn; [exact Hw|].
  rewrite Forall_forall in Hh |- *. intros x Hx.
  apply list_elem_of_filter in Hx as [_ Hx]. apply Hh, Hx.
Qed.

Lemma references_Save_instance ids r : respects (keepsReferences ids) (Save_instance r).
Proof.
  unfold Save_instance.
  apply respects_bind; [apply keepsReferences_trans | apply references_nextOutcome |].
  intros [err|]; intros app H; exact H.
Qed.

(** X9: a tick keeps the references whole.  If every stored snapshot
    and every stored webhook names an instance of the instance table
    before the tick, so it does after it: the tick writes rows for the
    instances of the table only, whatever is fetched and whichever
    store calls fail. *)
Theorem checkInstances_keeps_references app :
  references (map InstanceRecord.Id (instances app)) app ->
  references (map InstanceRecord.Id (instances (snd (checkInstances mapRange remote app))))
    (snd (checkInstances mapRange remote app)).
Proof.
  intros Href.
  destruct (checkInstances_moves_on app) as (-> & _).
  revert Href. set (ids := map InstanceRecord.Id (instances app)).
  unfold checkInstances, FindAllRecords_instances, bind.
  pose proof (references_nextOutcome ids app) as H1.
  assert (Hi : instances (snd (nextOutcome app)) = instances app).
  { destruct app as [i w h n f c j]. unfold nextOutcome. cbn. destruct f; reflexivity. }
  destruct (nextOutcome app) as [[e|] app1]; cbn [snd] in *; [exact H1|].
  intros Href. cbn [fst snd].
  apply (respects_checkInstances_loop (keepsReferences ids))
    with (owned := fun id => id ∈ ids) (good := fun rec => InstanceRecord.Id rec ∈ ids).
  - apply keepsReferences_refl.
  - apply keepsReferences_trans.
  - apply references_nextOutcome.
  - apply references_elapse.
  - apply references_Save_workflow.
  - apply references_Save_webhook.
  - apply references_Delete_webhook.
  - intros r r' Hc. rewrite (config_Id _ _ Hc). auto.
  - auto.
  - intros; apply references_Save_instance.
  - rewrite Hi. apply Forall_forall. intros rec Hrec.
    apply (list_elem_of_fmap_2 InstanceRecord.Id), Hrec.
  - apply H1, Href.
Qed.

Lemma forEach_not_due records : forall app,
  (forall rec, rec ∈ records ->
     shouldCheckInstance (clock app) (InstanceRecord.last_check rec)
       (InstanceRecord.check_interval_mins rec) = false) ->
  forEach records (checkInstances_body mapRange remote) app = (tt, app).
Proof.
  induction records as [|rec records IH]; intros app Hall; [reflexivity|].
  cbn [forEach]. unfold bind at 1. unfold checkInstances_body at 1. unfold bind, time_Now.
  rewrite (Hall rec) by left. cbn [negb]. unfold ret.
  apply IH. intros r Hr. apply Hall. right. exact Hr.
Qed.

(** X10: a tick in which no instance is due does nothing.  When due-ness
    fails for every instance row at the time of the tick, no instance
    is fetched and nothing is written: the tables, the journal and the
    clock are as before. *)
Theorem checkInstances_none_due app :
  (forall rec, rec ∈ instances app ->
     shouldCheckInstance (clock app) (InstanceRecord.last_check rec)
       (InstanceRecord.check_interval_mins rec) = false) ->
  let app' := snd (checkInstances mapRange remote app) in
  instances app' = instances app
  /\ workflows app' = workflows app
  /\ webhooks app' = webhooks app
  /\ journal app' = journal app
  /\ clock app' = clock app.
Proof.
  intros Hall. cbv zeta. unfold checkInstances, FindAllRecords_instances, bind.
  assert (Ht : instances (snd (nextOutcome app)) = instances app
               /\ workflows (snd (nextOutcome app)) = workflows app
               /\ webhooks (snd (nextOutcome app)) = webhooks app
               /\ journal (snd (nextOutcome app)) = journal app
               /\ clock (snd (nextOutcome app)) = clock app).
  { destruct app as [i w h n f c j]. unfold nextOutcome. cbn. destruct f; cbn; auto. }
  destruct (nextOutcome app) as [[e|] app1]; cbn [fst snd] in *; [exact Ht|].
  rewrite forEach_not_due; [exact Ht|].
  destruct Ht as (Hi & _ & _ & _ & Hc). rewrite Hi, Hc. exact Hall.
Qed.

End TickInvariants.

(** ** Webhook replacement when store calls fail *)

Section SyncWebhooksFaults.

Variable mapRange : gmap string NodeCredential.t -> list (string * NodeCredential.t).
Variable instance : Instance.t.
Variable workflow : Workflow.t.

Lemma nextOutcome_tables app :
  instances (snd (nextOutcome app)) = instances app
  /\ workflows (snd (nextOutcome app)) = workflows app
  /\ webhooks (snd (nextOutcome app)) = webhooks app
  /\ next_id (snd (nextOutcome app)) = next_id app.
Proof. destruct app as [i w h n f c j]. unfold nextOutcome. cbn. destruct f; cbn; auto. Qed.

Lemma getWorkflowName_cases I W app :
  (fst (getWorkflowName I W app) = storedName app I W \/ fst (getWorkflowName I W app) = W)
  /\ workflows (snd (getWorkflowName I W app)) = workflows app
  /\ webhooks (snd (getWorkflowName I W app)) = webhooks app
  /\ next_id (snd (getWorkflowName I W app)) = next_id app.
Proof.
  unfold getWorkflowName, FindRecordsByFilter, bind.
  destruct (nextOutcome_tables app) as (_ & Hw & Hh & Hn).
  destruct (nextOutcome app) as [[e|] app1]; cbn [fst snd] in *; cbn.
  - auto.
  - split; [|auto]. left. unfold storedName, currentSnapshot, snapshotsOf. rewrite Hw.
    destruct (sortDesc _); reflexivity.
Qed.

Lemma Save_webhook_cases r app :
  workflows (snd (Save_webhook r app)) = workflows app
  /\ ((fst (Save_webhook r app) = None
       /\ webhooks (snd (Save_webhook r app)) = webhooks app ++ [withWebhookId (next_id app) r]
       /\ next_id (snd (Save_webhook r app)) = S (next_id app))
      \/ (fst (Save_webhook r app) <> None
          /\ webhooks (snd (Save_webhook r app)) = webhooks app
          /\ next_id (snd (Save_webhook r app)) = next_id app)).
Proof.
  unfold Save_webhook, bind.
  destruct (nextOutcome_tables app) as (_ & Hw & Hh & Hn).
  destruct (nextOutcome app) as [[e|] app1]; cbn [fst snd] in *; cbn.
  - split; [exact Hw|]. right. auto.
  - split; [exact Hw|]. left. rewrite Hh, Hn. auto.
Qed.

Lemma Delete_webhook_cases r app :
  workflows (snd (Delete_webhook r app)) = workflows app
  /\ next_id (snd (Delete_webhook r app)) = next_id app
  /\ ((fst (Delete_webhook r app) = None
       /\ webhooks (snd (Delete_webhook r app))
          = filter (fun x => WebhookRecord.Id x <> WebhookRecord.Id r) (webhooks app))
      \/ (fst (Delete_webhook r app) <> None
          /\ webhooks (snd (Delete_webhook r app)) = webhooks app)).
Proof.
  unfold Delete_webhook, bind.
  destruct (nextOutcome_tables app) as (_ & Hw & Hh & Hn).
  destruct (nextOutcome app) as [[e|] app1]; cbn [fst snd] in *; cbn.
  - split; [exact Hw|]. split; [exact Hn|]. right. auto.
  - split; [exact Hw|]. split; [exact Hn|]. left. rewrite Hh. auto.
Qed.

(** The delete loop removes the rows of a front part of its list, all of
    it when it returns no error. *)
Lemma syncWebhooks_delete_cases rs : forall app,
  workflows (snd (syncWebhooks_delete rs app)) = workflows app
  /\ next_id (snd (syncWebhooks_delete rs app)) = next_id app
  /\ exists done rest,
       rs = done ++ rest
       /\ webhooks (snd (syncWebhooks_delete rs app)) = deleteRows done (webhooks app)
       /\ (fst (syncWebhooks_delete rs app) = None -> rest = []).
Proof.
  induction rs as [|r rs IH]; intros app.
  - cbn. split; [reflexivity|]. split; [reflexivity|]. exists [], []. auto.
  - cbn [syncWebhooks_delete]. unfold bind.
    destruct (Delete_webhook_cases r app) as (Hw & Hn & Hc).
    destruct (Delete_webhook r app) as [[e|] app1]; cbn [fst snd] in *.
    + destruct Hc as [[Hc _]|[_ Hh]]; [discriminate|].
      cbn. split; [exact Hw|]. split; [exact Hn|].
      exists [], (r :: rs). split; [reflexivity|]. split; [exact Hh|]. discriminate.
    + destruct Hc as [[_ Hh]|[Hc _]]; [|congruence].
      destruct (IH app1) as (Hw1 & Hn1 & done & rest & -> & Hh1 & Hr).
      split; [congruence|]. split; [congruence|].
      exists (r :: done), rest. split; [reflexivity|].
      split; [|exact Hr]. rewrite Hh1, Hh. reflexivity.
Qed.

Lemma forEach_cons_snd {A} (x : A) l body app :
  snd (forEach (x :: l) body app) = snd (forEach l body (snd (body x app))).
Proof. cbn [forEach]. unfold bind. destruct (body x app). reflexivity. Qed.

Lemma syncWebhooks_insert_step wh app :
  let app2 := snd (syncWebhooks_insert instance workflow wh app) in
  exists name,
    (name = storedName app (Instance.Id instance) (Workflow.WorkflowID workflow)
     \/ name = Workflow.WorkflowID workflow)
    /\ workflows app2 = workflows app
    /\ ((webhooks app2
         = webhooks app ++ [withWebhookId (next_id app) (webhookRecord instance workflow name wh)]
         /\ next_id app2 = S (next_id app))
        \/ (webhooks app2 = webhooks app /\ next_id app2 = next_id app)).
Proof.
  cbv zeta. unfold syncWebhooks_insert, bind.
  destruct (getWorkflowName_cases (Instance.Id instance) (Workflow.WorkflowID workflow) app)
    as (Hname & Hw0 & Hh0 & Hn0).
  destruct (getWorkflowName (Instance.Id instance) (Workflow.WorkflowID workflow) app)
    as [name app1]; cbn [fst snd] in *.
  destruct (Save_webhook_cases (webhookRecord instance workflow name wh) app1) as (Hw1 & Hc).
  destruct (Save_webhook (webhookRecord instance workflow name wh) app1) as [o app2];
    cbn [fst snd] in *. unfold ret. cbn [snd].
  exists name. split; [exact Hname|]. split; [congruence|].
  destruct Hc as [(_ & Hh1 & Hn1)|(_ & Hh1 & Hn1)]; [left | right]; split; congruence.
Qed.

Lemma syncWebhooks_insert_cases whs : forall app,
  workflows (snd (forEach whs (syncWebhooks_insert instance workflow) app))
    = workflows app
  /\ (next_id app
      <= next_id (snd (forEach whs (syncWebhooks_insert instance workflow) app)))%nat
  /\ exists added,
       webhooks (snd (forEach whs (syncWebhooks_insert instance workflow) app))
         = webhooks app ++ added
       /\ (length added <= length whs)%nat
       /\ Forall
            (insertedBy instance workflow app (next_id app)
               (next_id (snd (forEach whs (syncWebhooks_insert instance workflow) app)))
               whs)
            added.
Proof.
  induction whs as [|wh whs IH]; intros app.
  - cbn. split; [reflexivity|]. split; [lia|]. exists []. rewrite app_nil_r.
    split; [reflexivity|]. split; [cbn; lia | constructor].
  - rewrite forEach_cons_snd.
    destruct (syncWebhooks_insert_step wh app) as (name & Hname & Hw1 & Hc).
    set (app2 := snd (syncWebhooks_insert instance workflow wh app)) in *.
    destruct (IH app2) as (Hw2 & Hn2 & added & Hh2 & Hlen & Hall).
    set (app3 := snd (forEach whs (syncWebhooks_insert instance workflow) app2)) in *.
    assert (Hst : storedName app2 (Instance.Id instance) (Workflow.WorkflowID workflow)
                  = storedName app (Instance.Id instance) (Workflow.WorkflowID workflow)).
    { unfold storedName, currentSnapshot, snapshotsOf. rewrite Hw1. reflexivity. }
    split; [congruence|].
    assert (Hrest : forall lo, (lo <= next_id app2)%nat ->
              Forall (insertedBy instance workflow app lo (next_id app3) (wh :: whs)) added).
    { intros lo Hlo. eapply Forall_impl; [exact Hall|].
      intros r (wh' & name' & Hin & Hnm & Hr & Hb).
      exists wh', name'. split; [right; exact Hin|]. rewrite Hst in Hnm.
      split; [exact Hnm|]. split; [exact Hr | lia]. }
    destruct Hc as [(Hh1 & Hn1)|(Hh1 & Hn1)].
    + split; [lia|].
      exists (withWebhookId (next_id app) (webhookRecord instance workflow name wh) :: added).
      split; [rewrite Hh2, Hh1, <- app_assoc; reflexivity|].
      split; [cbn [length]; lia|].
      apply Forall_cons. split; [|apply Hrest; lia].
      exists wh, name. split; [left|]. split; [exact Hname|].
      split; [reflexivity|]. cbn. lia.
    + split; [lia|].
      exists added. split; [rewrite Hh2, Hh1; reflexivity|].
      split; [cbn [length]; lia|]. apply Hrest. lia.
Qed.

Lemma insertedBy_matches app0 lo hi whs r :
  insertedBy instance workflow app0 lo hi whs r ->
  matchesWebhook (Instance.Id instance) (Workflow.WorkflowID workflow) r = true.
Proof.
  intros (wh & name & _ & _ & Hr & _). rewrite Hr. unfold matchesWebhook. cbn.
  rewrite !String.eqb_refl. reflexivity.
Qed.

Ltac fin :=
  first [ reflexivity | assumption | congruence | cbn; lia | constructor; fail
        | discriminate | intros _; split; congruence | intros; congruence ].

(** What [syncWebhooks] leaves, whichever store calls fail. *)
Lemma syncWebhooks_cases app :
  let I := Instance.Id instance in
  let W := Workflow.WorkflowID workflow in
  let app' := snd (syncWebhooks mapRange instance workflow app) in
  workflows app' = workflows app
  /\ (next_id app <= next_id app')%nat
  /\ exists done rest added,
       webhooksOf app I W = done ++ rest
       /\ webhooks app' = deleteRows done (webhooks app) ++ added
       /\ (length added <= length (extractWebhooksFromWorkflow mapRange workflow))%nat
       /\ Forall (insertedBy instance workflow app (next_id app) (next_id app')
                    (extractWebhooksFromWorkflow mapRange workflow)) added
       /\ (fst (syncWebhooks mapRange instance workflow app) = None -> rest = [])
       /\ (fst (syncWebhooks mapRange instance workflow app) <> None ->
           added = [] /\ next_id app' = next_id app).
Proof.
  cbv zeta. unfold syncWebhooks, FindCollectionByNameOrId, FindAllRecords_webhooks, bind.
  destruct (nextOutcome_tables app) as (_ & Hw1 & Hh1 & Hn1).
  destruct (nextOutcome app) as [[e|] app1]; cbn [fst snd] in *.
  { cbn. split; [exact Hw1|]. split; [lia|].
    exists [], (webhooksOf app (Instance.Id instance) (Workflow.WorkflowID workflow)), [].
    cbn. rewrite app_nil_r. repeat match goal with |- _ /\ _ => split end; fin. }
  cbn [ret fst snd].
  destruct (nextOutcome_tables app1) as (_ & Hw2 & Hh2 & Hn2).
  destruct (nextOutcome app1) as [[e|] app2]; cbn [fst snd] in *.
  { cbn. split; [congruence|]. split; [lia|].
    exists [], (webhooksOf app (Instance.Id instance) (Workflow.WorkflowID workflow)), [].
    cbn. rewrite app_nil_r. repeat match goal with |- _ /\ _ => split end; fin. }
  cbn [ret fst snd].
  set (records := filter _ (webhooks app2)).
  assert (Hrec : records = webhooksOf app (Instance.Id instance) (Workflow.WorkflowID workflow)).
  { unfold records, webhooksOf. rewrite Hh2, Hh1. reflexivity. }
  destruct (syncWebhooks_delete_cases records app2) as (Hw3 & Hn3 & done & rest & Hsplit & Hh3 & Hnone).
  destruct (syncWebhooks_delete records app2) as [[e|] app3]; cbn [fst snd] in *.
  { cbn. split; [congruence|]. split; [lia|].
    exists done, rest, []. rewrite app_nil_r.
    repeat match goal with |- _ /\ _ => split end; fin. }
  destruct (syncWebhooks_insert_cases (extractWebhooksFromWorkflow mapRange workflow) app3)
    as (Hw4 & Hn4 & added & Hh4 & Hlen & Hall).
  destruct (forEach (extractWebhooksFromWorkflow mapRange workflow)
              (syncWebhooks_insert instance workflow) app3) as [u app4];
    cbn [fst snd] in *. unfold ret. cbn [fst snd].
  split; [congruence|]. split; [lia|].
  exists done, rest, added.
  split; [congruence|]. split; [rewrite Hh4, Hh3, Hh2, Hh1; reflexivity|].
  split; [exact Hlen|]. split.
  - eapply Forall_impl; [exact Hall|].
    intros r (wh & name & Hin & Hnm & Hr & Hb). exists wh, name.
    split; [exact Hin|]. split.
    + replace (storedName app (Instance.Id instance) (Workflow.WorkflowID workflow))
        with (storedName app3 (Instance.Id instance) (Workflow.WorkflowID workflow));
        [exact Hnm|].
      unfold storedName, currentSnapshot, snapshotsOf. rewrite Hw3, Hw2, Hw1. reflexivity.
    + split; [exact Hr | lia].
  - split; [intros _; apply Hnone; reflexivity | intros H; congruence].
Qed.

Lemma deleteRows_sublist done : forall rows, deleteRows done rows `sublist_of` rows.
Proof.
  induction done as [|r done IH]; intros rows; [reflexivity|].
  unfold deleteRows in *. cbn [foldl]. etransitivity; [apply IH | apply sublist_filter].
Qed.

Lemma filter_filter_other {A} (P Q : A -> Prop)
    `{forall x, Decision (P x)} `{forall x, Decision (Q x)} (l : list A) :
  (forall x, x ∈ l -> ~ Q x -> ~ P x) -> filter P (filter Q l) = filter P l.
Proof.
  induction l as [|x l IH]; intros Hall; [reflexivity|].
  assert (IH' : filter P (filter Q l) = filter P l)
    by (apply IH; intros y Hy; apply Hall; right; exact Hy).
  rewrite (filter_cons Q). destruct (decide (Q x)) as [Hq|Hq].
  - rewrite !(filter_cons P). rewrite IH'. reflexivity.
  - rewrite (filter_cons P x l). rewrite decide_False by (apply Hall; [left | exact Hq]).
    exact IH'.
Qed.

Lemma filter_deleteRows_other (P : WebhookRecord.t -> Prop) `{forall x, Decision (P x)} done :
  forall rows,
    (forall r x, r ∈ done -> x ∈ rows -> WebhookRecord.Id x = WebhookRecord.Id r -> ~ P x) ->
    filter P (deleteRows done rows) = filter P rows.
Proof.
  induction done as [|r done IH]; intros rows Hall; [reflexivity|].
  unfold deleteRows in *. cbn [foldl]. rewrite IH.
  - apply filter_filter_other. intros x Hx Hq. apply (Hall r x); [left | exact Hx|].
    destruct (decide (WebhookRecord.Id x = WebhookRecord.Id r)); [assumption | contradiction].
  - intros r' x Hr' Hx. apply list_elem_of_filter in Hx as [_ Hx].
    apply Hall; [right; exact Hr' | exact Hx].
Qed.

Lemma NoDup_Id_eq (rows : list WebhookRecord.t) x y :
  NoDup (map WebhookRecord.Id rows) -> x ∈ rows -> y ∈ rows ->
  WebhookRecord.Id x = WebhookRecord.Id y -> x = y.
Proof.
  induction rows as [|a l IH]; cbn [map]; intros Hd Hx Hy Hf; [inversion Hx|].
  apply NoDup_cons in Hd as [Hn Hd].
  apply elem_of_cons in Hx as [->|Hx]; apply elem_of_cons in Hy as [->|Hy].
  - reflexivity.
  - exfalso. apply Hn. rewrite Hf. apply (list_elem_of_fmap_2 WebhookRecord.Id), Hy.
  - exfalso. apply Hn. rewrite <- Hf. apply (list_elem_of_fmap_2 WebhookRecord.Id), Hx.
  - apply IH; assumption.
Qed.

(** X11: when [syncWebhooks] returns no error, whichever saves and name
    lookups failed on the way, the rows the workflow has afterwards are
    all new: each was saved in this call for one of the webhooks
    extracted from the workflow, under the stored name of the workflow
    or, when the lookup failed, under its id; and there are at most as
    many rows as extracted webhooks. *)
Theorem syncWebhooks_ok_rows app :
  fst (syncWebhooks mapRange instance workflow app) = None ->
  let I := Instance.Id instance in
  let W := Workflow.WorkflowID workflow in
  let app' := snd (syncWebhooks mapRange instance workflow app) in
  (forall r, r ∈ webhooksOf app' I W ->
     (next_id app <= WebhookRecord.Id r < next_id app')%nat
     /\ exists wh name,
          wh ∈ extractWebhooksFromWorkflow mapRange workflow
          /\ (name = storedName app I W \/ name = W)
          /\ r = withWebhookId (WebhookRecord.Id r) (webhookRecord instance workflow name wh))
  /\ (length (webhooksOf app' I W)
      <= length (extractWebhooksFromWorkflow mapRange workflow))%nat.
Proof.
  intros Hok. cbv zeta.
  destruct (syncWebhooks_cases app)
    as (_ & _ & done & rest & added & Hsplit & Hh & Hlen & Hall & Hnone & _).
  rewrite (Hnone Hok), app_nil_r in Hsplit. subst done.
  assert (Hown : webhooksOf (snd (syncWebhooks mapRange instance workflow app))
                   (Instance.Id instance) (Workflow.WorkflowID workflow) = added).
  { unfold webhooksOf at 1. rewrite Hh, filter_app.
    unfold webhooksOf. rewrite deleteRows_own_key, app_nil_l.
    apply filter_all. rewrite Forall_forall in Hall. intros x Hx.
    eapply insertedBy_matches, Hall, Hx. }
  rewrite Hown. split; [|exact Hlen].
  rewrite Forall_forall in Hall. intros r Hr.
  destruct (Hall r Hr) as (wh & name & Hin & Hnm & Heq & Hb).
  split; [exact Hb|]. exists wh, name. auto.
Qed.

(** X12: when [syncWebhooks] returns an error it has saved no webhook:
    the webhook table has only lost rows, no record id was handed out
    and the snapshots are as before. *)
Theorem syncWebhooks_error_saves_nothing app e :
  fst (syncWebhooks mapRange instance workflow app) = Some e ->
  let app' := snd (syncWebhooks mapRange instance workflow app) in
  webhooks app' `sublist_of` webhooks app
  /\ next_id app' = next_id app
  /\ workflows app' = workflows app.
Proof.
  intros Herr. cbv zeta.
  destruct (syncWebhooks_cases app)
    as (Hw & _ & done & rest & added & _ & Hh & _ & _ & _ & Hsome).
  destruct Hsome as [-> Hn]; [congruence|].
  rewrite Hh, app_nil_r. split; [apply deleteRows_sublist|]. split; assumption.
Qed.

(** X13: [syncWebhooks] touches the webhooks of its own workflow only.
    When the ids of the stored webhooks are distinct, the rows of every
    other instance or workflow are the same after the call as before
    it, whether it fails or not. *)
Theorem syncWebhooks_keeps_other_rows app :
  NoDup (map WebhookRecord.Id (webhooks app)) ->
  let I := Instance.Id instance in
  let W := Workflow.WorkflowID workflow in
  let app' := snd (syncWebhooks mapRange instance workflow app) in
  filter (fun r => matchesWebhook I W r <> true) (webhooks app')
  = filter (fun r => matchesWebhook I W r <> true) (webhooks app).
Proof.
  intros Hd. cbv zeta.
  destruct (syncWebhooks_cases app)
    as (_ & _ & done & rest & added & Hsplit & Hh & _ & Hall & _ & _).
  rewrite Hh, filter_app.
  rewrite (filter_none _ added).
  - rewrite app_nil_r. apply filter_deleteRows_other.
    intros r x Hr Hx Hid Hne. apply Hne.
    assert (Hrin : r ∈ webhooksOf app (Instance.Id instance) (Workflow.WorkflowID workflow))
      by (rewrite Hsplit; apply elem_of_app; left; exact Hr).
    apply list_elem_of_filter in Hrin as [Hm Hrin].
    rewrite (NoDup_Id_eq _ x r Hd Hx Hrin Hid). exact Hm.
  - rewrite Forall_forall in Hall. intros x Hx Hne. apply Hne.
    eapply insertedBy_matches, Hall, Hx.
Qed.

End SyncWebhooksFaults.

(** ** Workflow synchronisation when store calls fail *)

Section SyncWorkflowsFaults.

Variable mapRange : gmap string NodeCredential.t -> list (string * NodeCredential.t).
Variable instance : Instance.t.

Lemma FindRecordsByFilter_tables I W limit app :
  workflows (snd (FindRecordsByFilter I W limit app)) = workflows app
  /\ webhooks (snd (FindRecordsByFilter I W limit app)) = webhooks app
  /\ next_id (snd (FindRecordsByFilter I W limit app)) = next_id app
  /\ journal (snd (FindRecordsByFilter I W limit app)) = journal app.
Proof.
  unfold FindRecordsByFilter, bind, nextOutcome.
  destruct app as [i w h n f c j]. cbn. destruct f as [|[e|] f]; cbn; auto.
Qed.

Lemma Save_workflow_rows r app :
  (fst (Save_workflow r app) = None
   /\ workflows (snd (Save_workflow r app)) = workflows app ++ [withWorkflowId (next_id app) r])
  \/ (fst (Save_workflow r app) <> None
      /\ workflows (snd (Save_workflow r app)) = workflows app).
Proof.
  unfold Save_workflow, bind, nextOutcome.
  destruct app as [i w h n f c j]. cbn. destruct f as [|[e|] f]; cbn; auto.
Qed.

Lemma syncWorkflows_body_rows workflow app :
  workflows (snd (syncWorkflows_body mapRange instance workflow app)) = workflows app
  \/ exists n,
       workflows (snd (syncWorkflows_body mapRange instance workflow app))
       = workflows app ++ [withWorkflowId n (createWorkflowRecord instance workflow)].
Proof.
  unfold syncWorkflows_body, bind.
  destruct (FindRecordsByFilter_tables (Instance.Id instance) (Workflow.WorkflowID workflow)
              1 app) as (Hw0 & _).
  destruct (FindRecordsByFilter (Instance.Id instance) (Workflow.WorkflowID workflow) 1 app)
    as [found app1]; cbn [fst snd] in *.
  destruct (needsUpdate workflow found); [|left; exact Hw0].
  unfold syncWorkflows_update, bind.
  destruct (Save_workflow_rows (createWorkflowRecord instance workflow) app1) as [[Ho Hw1]|[Ho Hw1]];
    destruct (Save_workflow (createWorkflowRecord instance workflow) app1) as [[e|] app2];
    cbn [fst snd] in *; try congruence.
  - right. exists (next_id app1).
    destruct (syncWebhooks_cases mapRange instance workflow app2) as (Hw2 & _).
    destruct (syncWebhooks mapRange instance workflow app2) as [o app3]; cbn [fst snd] in *.
    unfold ret. cbn [snd]. congruence.
  - left. unfold ret. cbn [snd]. congruence.
Qed.

(** X14: the snapshots [syncWorkflows] stores.  Whichever store calls
    fail, it only appends to the snapshot table, and what it appends
    are the records of [createWorkflowRecord] for some of the listed
    workflows, each at most once and in the order of the list. *)
Theorem syncWorkflows_appends_listed (workflows0 : list Workflow.t) (app : App) :
  exists added saved,
    workflows (snd (syncWorkflows mapRange instance workflows0 app)) = workflows app ++ added
    /\ saved `sublist_of` workflows0
    /\ map (withWorkflowId 0) added = map (createWorkflowRecord instance) saved.
Proof.
  unfold syncWorkflows, FindCollectionByNameOrId, bind.
  destruct (nextOutcome_tables app) as (_ & Hw & _).
  destruct (nextOutcome app) as [[e|] app1]; cbn [fst snd] in *.
  { exists [], []. cbn. rewrite app_nil_r. split; [exact Hw|].
    split; [apply sublist_nil_l | reflexivity]. }
  cbn [ret]. rewrite <- Hw. clear Hw.
  assert (H : forall ws app1,
             exists added saved,
               workflows (snd (forEach ws (syncWorkflows_body mapRange instance) app1))
               = workflows app1 ++ added
               /\ saved `sublist_of` ws
               /\ map (withWorkflowId 0) added = map (createWorkflowRecord instance) saved).
  { clear. induction ws as [|w ws IH]; intros app1.
    - exists [], []. cbn. rewrite app_nil_r. auto.
    - rewrite forEach_cons_snd.
      destruct (IH (snd (syncWorkflows_body mapRange instance w app1)))
        as (added & saved & Hadd & Hsub & Hmap).
      destruct (syncWorkflows_body_rows w app1) as [Hb|[n Hb]].
      + exists added, saved. rewrite Hadd, Hb.
        split; [reflexivity|]. split; [apply sublist_cons, Hsub | exact Hmap].
      + exists (withWorkflowId n (createWorkflowRecord instance w) :: added), (w :: saved).
        rewrite Hadd, Hb, <- app_assoc.
        split; [reflexivity|]. split; [apply sublist_skip, Hsub|].
        cbn [map]. rewrite Hmap. reflexivity. }
  destruct (H workflows0 app1) as (added & saved & Hadd & Hsub & Hmap).
  exists added, saved.
  destruct (forEach workflows0 (syncWorkflows_body mapRange instance) app1) as [u app2].
  cbn [fst snd] in *. auto.
Qed.

(** X15: [syncWorkflows] reports an error only for its first store
    call, the lookup of the collection; it has then written nothing.
    Once that lookup succeeds it returns no error, whatever fails for
    the single workflows. *)
Theorem syncWorkflows_error_only_from_lookup (workflows0 : list Workflow.t) (app : App) :
  let run := syncWorkflows mapRange instance workflows0 app in
  (forall e, fst run = Some e ->
     (exists e0, fst (FindCollectionByNameOrId "workflows" app) = Err e0
                 /\ e = ("failed to find workflows collection: " ++ e0)%string)
     /\ workflows (snd run) = workflows app
     /\ webhooks (snd run) = webhooks app
     /\ journal (snd run) = journal app)
  /\ (forall c, fst (FindCollectionByNameOrId "workflows" app) = Ok c -> fst run = None).
Proof.
  cbv zeta. unfold syncWorkflows, bind.
  assert (Ht : workflows (snd (FindCollectionByNameOrId "workflows" app)) = workflows app
               /\ webhooks (snd (FindCollectionByNameOrId "workflows" app)) = webhooks app
               /\ journal (snd (FindCollectionByNameOrId "workflows" app)) = journal app).
  { unfold FindCollectionByNameOrId, bind, nextOutcome.
    destruct app as [i w h n f c j]. cbn. destruct f as [|[e|] f]; cbn; auto. }
  destruct (FindCollectionByNameOrId "workflows" app) as [[c|e0] app1]; cbn [fst snd] in *.
  - destruct (forEach workflows0 (syncWorkflows_body mapRange instance) app1) as [u app2].
    cbn. split; [intros e He; discriminate | reflexivity].
  - cbn. split; [|intros c Hc; discriminate].
    intros e He. injection He as <-. split; [exists e0; auto | exact Ht].
Qed.

End SyncWorkflowsFaults.

(** ** The outcome of a pass *)

Section Pass.

Variable mapRange : gmap string NodeCredential.t -> list (string * NodeCredential.t).
Variable remote : Instance.t -> Reply.

Lemma sameInstances_refl app : sameInstances app app.
Proof. split; reflexivity. Qed.

Lemma sameInstances_trans a b c :
  sameInstances a b -> sameInstances b c -> sameInstances a c.
Proof. intros [H1 H2] [H3 H4]. split; congruence. Qed.

Lemma sameInstances_nextOutcome : respects sameInstances nextOutcome.
Proof.
  intros [i w h n f c j]. unfold nextOutcome. cbn. destruct f; split; reflexivity.
Qed.

Lemma sameInstances_Save_workflow r : respects sameInstances (Save_workflow r).
Proof.
  intros [i w h n f c j]. unfold Save_workflow, bind, nextOutcome. cbn.
  destruct f as [|[e|] f]; split; reflexivity.
Qed.

Lemma sameInstances_Save_webhook r : respects sameInstances (Save_webhook r).
Proof.
  intros [i w h n f c j]. unfold Save_webhook, bind, nextOutcome. cbn.
  destruct f as [|[e|] f]; split; reflexivity.
Qed.

Lemma sameInstances_Delete_webhook r : respects sameInstances (Delete_webhook r).
Proof.
  intros [i w h n f c j]. unfold Delete_webhook, bind, nextOutcome. cbn.
  destruct f as [|[e|] f]; split; reflexivity.
Qed.

Lemma syncWorkflows_sameInstances instance ws :
  respects sameInstances (syncWorkflows mapRange instance ws).
Proof.
  apply respects_syncWorkflows with (owned := fun _ => True);
    first [ exact sameInstances_refl | exact sameInstances_trans
          | exact sameInstances_nextOutcome | exact sameInstances_Delete_webhook
          | intros; apply sameInstances_Save_workflow
          | intros; apply sameInstances_Save_webhook | auto ].
Qed.

Lemma Save_instance_cases r app :
  clock (snd (Save_instance r app)) = clock app
  /\ ((fst (Save_instance r app) = None
       /\ instances (snd (Save_instance r app)) = replaceInstance r (instances app))
      \/ (exists e, fst (Save_instance r app) = Some e
                    /\ instances (snd (Save_instance r app)) = instances app)).
Proof.
  destruct app as [i w h n f c j]. unfold Save_instance, bind, nextOutcome. cbn.
  destruct f as [|[e|] f]; cbn; split; try reflexivity; eauto.
Qed.

(** The record [syncInstance] fills in once the statistics are there. *)
Lemma syncInstance_decoded instance rec app data :
  outcome (remote instance) = Decoded data ->
  let run := syncInstance mapRange remote instance rec app in
  let stats := fst (GetInstanceStats (map (stampInstance (Instance.Id instance)) data)) in
  let rec' := fst (fst run) in
  config rec' = config rec
  /\ InstanceRecord.availability_status rec' = true
  /\ InstanceRecord.availability_note rec' = EmptyString
  /\ InstanceRecord.last_check rec' = clock (snd run)
  /\ InstanceRecord.workflows_active rec' = InstanceStats.ActiveWorkflows stats
  /\ InstanceRecord.workflows_inactive rec' = InstanceStats.InactiveWorkflows stats
  /\ InstanceRecord.webhooks_active rec' = InstanceStats.ActiveWebhooks stats
  /\ InstanceRecord.webhooks_inactive rec' = InstanceStats.InactiveWebhooks stats
  /\ ((snd (fst run) = None /\ instances (snd run) = replaceInstance rec' (instances app))
      \/ (exists e0, snd (fst run) = Some ("failed to update instance record: " ++ e0)%string
                     /\ instances (snd run) = instances app)).
Proof.
  intros Ho. remember (syncInstance mapRange remote instance rec app) as run eqn:Hrun.
  cbv zeta. unfold syncInstance, bind in Hrun.
  pose proof (GetWorkflows_state remote instance app) as Hst.
  assert (Hf : fst (GetWorkflows remote instance app)
               = Ok (map (stampInstance (Instance.Id instance)) data)).
  { unfold GetWorkflows, bind, elapse, ret. cbn. rewrite Ho. reflexivity. }
  destruct (GetWorkflows remote instance app) as [res app1]. cbn [fst snd] in Hst, Hf.
  subst res. unfold GetInstanceStats in Hrun |- *. cbv iota beta in Hrun. cbn [fst].
  set (ws := map (stampInstance (Instance.Id instance)) data) in *.
  destruct (syncWorkflows_sameInstances instance ws app1) as [Hi Hc].
  destruct (syncWorkflows mapRange instance ws app1) as [o app2]. cbn [snd] in Hi, Hc.
  unfold time_Now in Hrun.
  match type of Hrun with context [Save_instance ?r app2] =>
    destruct (Save_instance_cases r app2) as (Hc3 & Hcase);
    destruct (Save_instance r app2) as [saved app3] end.
  cbn [fst snd] in Hc3, Hcase.
  assert (Hi1 : instances app1 = instances app) by (rewrite Hst; destruct app; reflexivity).
  destruct Hcase as [[-> Hi3]|(e0 & -> & Hi3)]; unfold ret in Hrun; subst run; cbn [fst snd];
    unfold config; cbn [InstanceRecord.Id InstanceRecord.host InstanceRecord.api_key
      InstanceRecord.ignore_ssl_errors InstanceRecord.check_interval_mins
      InstanceRecord.last_check InstanceRecord.availability_status
      InstanceRecord.availability_note InstanceRecord.workflows_active
      InstanceRecord.workflows_inactive InstanceRecord.webhooks_active
      InstanceRecord.webhooks_inactive];
    repeat match goal with |- _ /\ _ => split end; try reflexivity; try congruence.
  - left. split; [reflexivity|]. rewrite Hi3, Hi, Hi1. reflexivity.
  - right. exists e0. split; [reflexivity|]. congruence.
Qed.

(** X16: a pass that returns no error.  The fetch was decoded, and the
    row of the instance has been replaced by the record the pass
    returns: marked available, with empty note, the time read at the
    end of the pass as last check, the counters of [GetInstanceStats]
    on the fetched workflows, and the configuration it had. *)
Theorem syncInstance_success (instance : Instance.t) (rec : InstanceRecord.t) (app : App) :
  snd (fst (syncInstance mapRange remote instance rec app)) = None ->
  let run := syncInstance mapRange remote instance rec app in
  let rec' := fst (fst run) in
  exists data,
    outcome (remote instance) = Decoded data
    /\ let stats := fst (GetInstanceStats (map (stampInstance (Instance.Id instance)) data)) in
       instances (snd run) = replaceInstance rec' (instances app)
       /\ config rec' = config rec
       /\ InstanceRecord.availability_status rec' = true
       /\ InstanceRecord.availability_note rec' = EmptyString
       /\ InstanceRecord.last_check rec' = clock (snd run)
       /\ InstanceRecord.workflows_active rec' = InstanceStats.ActiveWorkflows stats
       /\ InstanceRecord.workflows_inactive rec' = InstanceStats.InactiveWorkflows stats
       /\ InstanceRecord.webhooks_active rec' = InstanceStats.ActiveWebhooks stats
       /\ InstanceRecord.webhooks_inactive rec' = InstanceStats.InactiveWebhooks stats.
Proof.
  intros Hok. cbv zeta.
  destruct (outcome (remote instance)) as [e|e|st body|e|e|e|data] eqn:Ho.
  1-6: exfalso; revert Hok; unfold syncInstance, bind, GetWorkflows, elapse, ret; cbn;
       rewrite Ho; cbn; discriminate.
  exists data. split; [reflexivity|].
  destruct (syncInstance_decoded instance rec app data Ho)
    as (H1 & H2 & H3 & H4 & H5 & H6 & H7 & H8 & Hcase).
  destruct Hcase as [[_ Hi]|(e0 & He & _)]; [|congruence].
  cbv zeta. auto 10.
Qed.

(** X17: a pass that returns an error has changed no instance row.  The
    error is the one of the fetch, and the record comes back as it was
    given, or it is the one of the final save, on a decoded fetch; the
    statistics never are the cause. *)
Theorem syncInstance_failure (instance : Instance.t) (rec : InstanceRecord.t) (app : App)
    (e : error) :
  snd (fst (syncInstance mapRange remote instance rec app)) = Some e ->
  let run := syncInstance mapRange remote instance rec app in
  instances (snd run) = instances app
  /\ ((exists e0, fst (GetWorkflows remote instance app) = Err e0
                  /\ e = ("failed to get workflows: " ++ e0)%string
                  /\ fst (fst run) = rec)
      \/ (exists e0 data, outcome (remote instance) = Decoded data
                          /\ e = ("failed to update instance record: " ++ e0)%string
                          /\ InstanceRecord.availability_status (fst (fst run)) = true)).
Proof.
  intros Herr. cbv zeta.
  destruct (outcome (remote instance)) as [e1|e1|st body|e1|e1|e1|data] eqn:Ho.
  1-6: revert Herr; unfold syncInstance, bind, GetWorkflows, elapse, ret; cbn;
       rewrite Ho; cbn; intros Herr; injection Herr as <-;
       (split; [reflexivity | left; eexists; repeat split; reflexivity]).
  destruct (syncInstance_decoded instance rec app data Ho)
    as (_ & H2 & _ & _ & _ & _ & _ & _ & Hcase).
  destruct Hcase as [[Hn _]|(e0 & He & Hi)]; [congruence|].
  split; [exact Hi|]. right. exists e0, data. split; [reflexivity|].
  split; [congruence | exact H2].
Qed.

End Pass.

(** ** Settling and the change test *)

Section Settles.

Variable mapRange : gmap string NodeCredential.t -> list (string * NodeCredential.t).

Lemma leb_refl s : String.leb s s = true.
Proof. destruct (String.leb_total s s); assumption. Qed.

Lemma elem_of_insertDesc r l x : x ∈ insertDesc r l <-> x = r \/ x ∈ l.
Proof.
  induction l as [|y l IH]; cbn [insertDesc].
  - rewrite elem_of_cons. reflexivity.
  - destruct (String.leb _ _).
    + rewrite elem_of_cons. reflexivity.
    + rewrite !elem_of_cons, IH. tauto.
Qed.

Lemma elem_of_sortDesc l x : x ∈ sortDesc l <-> x ∈ l.
Proof.
  induction l as [|y l IH]; [reflexivity|].
  unfold sortDesc in *. cbn [foldr]. rewrite elem_of_insertDesc, IH, elem_of_cons. reflexivity.
Qed.

(** A row whose creation text is above all others is the first of the
    sort, also when it was stored last. *)
Lemma head_sortDesc_snoc l new :
  (forall x, x ∈ l ->
     String.leb (WorkflowRecord.created_at new) (WorkflowRecord.created_at x) = false) ->
  head (sortDesc (l ++ [new])) = Some new.
Proof.
  induction l as [|y l IH]; intros Hall; [reflexivity|].
  unfold sortDesc in *. cbn [foldr app].
  assert (IH' : head (foldr insertDesc [] (l ++ [new])) = Some new)
    by (apply IH; intros x Hx; apply Hall; right; exact Hx).
  destruct (foldr insertDesc [] (l ++ [new])) as [|z t]; [discriminate|].
  cbn in IH'. injection IH' as ->. cbn [insertDesc].
  rewrite (Hall y) by left. reflexivity.
Qed.

(** X18: a workflow that is new to the store settles in one pass.  When
    no store call fails and no stored snapshot of the workflow has a
    creation text at or above the one the remote reports, the body of
    the loop stores exactly one snapshot, and running it again on the
    same workflow changes nothing. *)
Theorem syncWorkflows_body_settles (instance : Instance.t) (workflow : Workflow.t)
    (app : App) :
  faults app = [] ->
  (forall r, r ∈ snapshotsOf app (Instance.Id instance) (Workflow.WorkflowID workflow) ->
     String.leb (FormatRFC3339 (Workflow.CreatedAt workflow)) (WorkflowRecord.created_at r)
     = false) ->
  let app1 := snd (syncWorkflows_body mapRange instance workflow app) in
  workflows app1
  = workflows app ++ [withWorkflowId (next_id app) (createWorkflowRecord instance workflow)]
  /\ syncWorkflows_body mapRange instance workflow app1 = (tt, app1).
Proof.
  intros Hq Hbelow.
  set (new := withWorkflowId (next_id app) (createWorkflowRecord instance workflow)).
  assert (Hfirst : needsUpdate workflow
                     (Ok match currentSnapshot app (Instance.Id instance) (Workflow.WorkflowID workflow) with Some r => [r] | None => [] end)
                   = true).
  { destruct (currentSnapshot app (Instance.Id instance) (Workflow.WorkflowID workflow)) as [r|] eqn:Hc; [|reflexivity].
    assert (Hr : r ∈ snapshotsOf app (Instance.Id instance) (Workflow.WorkflowID workflow)).
    { apply elem_of_sortDesc. unfold currentSnapshot in Hc.
      destruct (sortDesc (snapshotsOf app (Instance.Id instance) (Workflow.WorkflowID workflow))); [discriminate|].
      cbn in Hc. injection Hc as ->. left. }
    specialize (Hbelow r Hr). cbn [needsUpdate].
    destruct (String.eqb (WorkflowRecord.created_at r) _) eqn:E; [|reflexivity].
    apply String.eqb_eq in E. rewrite E, leb_refl in Hbelow. discriminate. }
  assert (Hrun : exists app1,
             syncWorkflows_body mapRange instance workflow app = (tt, app1)
             /\ faults app1 = [] /\ workflows app1 = workflows app ++ [new]).
  { unfold syncWorkflows_body, bind.
    rewrite (FindRecordsByFilter_quiet (Instance.Id instance) (Workflow.WorkflowID workflow) app Hq). rewrite Hfirst.
    unfold syncWorkflows_update, bind.
    assert (Hs : Save_workflow (createWorkflowRecord instance workflow) app
                 = (None, mkApp (instances app) (workflows app ++ [new]) (webhooks app)
                            (S (next_id app)) [] (clock app)
                            (journal app
                             ++ [SaveWorkflow (createWorkflowRecord instance workflow) true]))).
    { unfold Save_workflow, bind, nextOutcome. rewrite Hq. cbn. rewrite Hq. reflexivity. }
    rewrite Hs. rewrite syncWebhooks_quiet by reflexivity.
    cbv zeta. unfold ret. eexists. split; [reflexivity|]. split; reflexivity. }
  destruct Hrun as (app1 & Hrun & Hq1 & Hw1). rewrite Hrun. cbn [snd].
  split; [exact Hw1|].
  unfold syncWorkflows_body, bind.
  rewrite (FindRecordsByFilter_quiet (Instance.Id instance) (Workflow.WorkflowID workflow) app1 Hq1).
  assert (Hc : currentSnapshot app1 (Instance.Id instance) (Workflow.WorkflowID workflow) = Some new).
  { unfold currentSnapshot, snapshotsOf. rewrite Hw1, filter_app.
    assert (Hm : matchesWorkflow (Instance.Id instance) (Workflow.WorkflowID workflow) new = true).
    { unfold matchesWorkflow, new. cbn. rewrite !String.eqb_refl. reflexivity. }
    rewrite (filter_cons _ new), decide_True by exact Hm.
    apply head_sortDesc_snoc. exact Hbelow. }
  rewrite Hc. cbn [needsUpdate].
  unfold new. cbn. rewrite !String.eqb_refl, Bool.eqb_reflx. reflexivity.
Qed.

Lemma FormatRFC3339_second t u : t / Second = u / Second -> FormatRFC3339 t = FormatRFC3339 u.
Proof. intros H. unfold FormatRFC3339. rewrite H. reflexivity. Qed.

(** X19: the change test compares the times as texts of whole seconds.
    Against the snapshot stored for a workflow, a workflow that differs
    from it in createdAt and updatedAt by less than the second they lie
    in, and agrees on active, is taken for unchanged; so is the
    workflow itself. *)
Theorem needsUpdate_ignores_subsecond (instance : Instance.t) (stored now : Workflow.t)
    (id : nat) (older : list WorkflowRecord.t) :
  Workflow.CreatedAt now / Second = Workflow.CreatedAt stored / Second ->
  Workflow.UpdatedAt now / Second = Workflow.UpdatedAt stored / Second ->
  Workflow.Active now = Workflow.Active stored ->
  needsUpdate now (Ok (withWorkflowId id (createWorkflowRecord instance stored) :: older))
  = false.
Proof.
  intros Hc Hu Ha. cbn [needsUpdate withWorkflowId createWorkflowRecord
    WorkflowRecord.created_at WorkflowRecord.updated_at WorkflowRecord.active].
  rewrite (FormatRFC3339_second _ _ Hc), (FormatRFC3339_second _ _ Hu), Ha.
  rewrite !String.eqb_refl, Bool.eqb_reflx. reflexivity.
Qed.

End Settles.

(** ** The shape of a route *)

Section Trimmed.

Variable p2 : ascii -> ascii -> bool.
Variable p3 : ascii -> ascii -> ascii -> bool.

Lemma trimFront_suffix_aux n : forall s, (length s <= n)%nat ->
  exists pre, s = pre ++ trimFront p2 p3 s.
Proof.
  induction n as [|n IH]; intros s Hn.
  - destruct s; [exists []; reflexivity | cbn in Hn; lia].
  - destruct s as [|c1 r1]; [exists []; reflexivity|].
    cbn [trimFront]. cbn [length] in Hn.
    destruct (isSpace1 c1).
    { destruct (IH r1) as [pre Hp]; [lia|]. exists (c1 :: pre). cbn. f_equal. exact Hp. }
    destruct r1 as [|c2 r2]; [exists []; reflexivity|]. cbn [length] in Hn.
    destruct (p2 c1 c2).
    { destruct (IH r2) as [pre Hp]; [lia|]. exists (c1 :: c2 :: pre). cbn. do 2 f_equal. exact Hp. }
    destruct r2 as [|c3 r3]; [exists []; reflexivity|]. cbn [length] in Hn.
    destruct (p3 c1 c2 c3); [|exists []; reflexivity].
    destruct (IH r3) as [pre Hp]; [lia|]. exists (c1 :: c2 :: c3 :: pre). cbn. do 3 f_equal.
    exact Hp.
Qed.

Lemma trimFront_suffix s : exists pre, s = pre ++ trimFront p2 p3 s.
Proof. apply (trimFront_suffix_aux (length s)). lia. Qed.

Lemma trimFront_length s : (length (trimFront p2 p3 s) <= length s)%nat.
Proof.
  destruct (trimFront_suffix s) as [pre Hp]. rewrite Hp at 2. rewrite length_app. lia.
Qed.

Lemma trimFront_fixed_aux n : forall s, (length s <= n)%nat ->
  trimFront p2 p3 (trimFront p2 p3 s) = trimFront p2 p3 s.
Proof.
  induction n as [|n IH]; intros s Hn.
  - destruct s; [reflexivity | cbn in Hn; lia].
  - destruct s as [|c1 r1]; [reflexivity|]. cbn [length] in Hn.
    cbn [trimFront].
    destruct (isSpace1 c1) eqn:E1; [apply IH; lia|].
    destruct r1 as [|c2 r2]; [cbn [trimFront]; rewrite E1; reflexivity|].
    cbn [length] in Hn.
    destruct (p2 c1 c2) eqn:E2; [apply IH; lia|].
    destruct r2 as [|c3 r3]; [cbn [trimFront]; rewrite E1, E2; reflexivity|].
    cbn [length] in Hn.
    destruct (p3 c1 c2 c3) eqn:E3; [apply IH; lia|].
    cbn [trimFront]. rewrite E1, E2, E3. reflexivity.
Qed.

Lemma trimFront_fixed s : trimFront p2 p3 (trimFront p2 p3 s) = trimFront p2 p3 s.
Proof. apply (trimFront_fixed_aux (length s)). lia. Qed.

(** A text without leading white space has no front part with some. *)
Lemma trimFront_prefix t k :
  trimFront p2 p3 (t ++ k) = t ++ k -> trimFront p2 p3 t = t.
Proof.
  intros Hu.
  destruct t as [|c1 t1]; [reflexivity|]. cbn [app trimFront] in Hu |- *.
  destruct (isSpace1 c1).
  { pose proof (trimFront_length (t1 ++ k)) as Hl. rewrite Hu in Hl. cbn [length] in Hl. lia. }
  destruct t1 as [|c2 t2]; [reflexivity|]. cbn [app] in Hu.
  destruct (p2 c1 c2).
  { pose proof (trimFront_length (t2 ++ k)) as Hl. rewrite Hu in Hl. cbn [length] in Hl. lia. }
  destruct t2 as [|c3 t3]; [reflexivity|]. cbn [app] in Hu.
  destruct (p3 c1 c2 c3); [|reflexivity].
  pose proof (trimFront_length (t3 ++ k)) as Hl. rewrite Hu in Hl. cbn [length] in Hl. lia.
Qed.

End Trimmed.

Section RouteShape.

Lemma TrimSpace_parts s :
  exists pre post, TrimLeftSpace s = TrimSpace s ++ post /\ s = pre ++ TrimSpace s ++ post.
Proof.
  unfold TrimSpace, TrimRightSpace.
  destruct (trimFront_suffix isSpace2 isSpace3 s) as [pre Hpre].
  fold (TrimLeftSpace s) in Hpre.
  destruct (trimFront_suffix (fun a b => isSpace2 b a) (fun a b c => isSpace3 c b a)
              (rev (TrimLeftSpace s))) as [q Hq].
  exists pre, (rev q).
  assert (Hu : TrimLeftSpace s
               = rev (trimFront (fun a b => isSpace2 b a) (fun a b c => isSpace3 c b a)
                        (rev (TrimLeftSpace s))) ++ rev q).
  { rewrite <- rev_app_distr, <- Hq, rev_involutive. reflexivity. }
  split; [exact Hu|]. rewrite <- Hu. exact Hpre.
Qed.

(** [strings.TrimSpace] is idempotent, also on the multi-byte
    white space of Unicode. *)
Lemma TrimSpace_idempotent s : TrimSpace (TrimSpace s) = TrimSpace s.
Proof.
  destruct (TrimSpace_parts s) as (pre & post & Hu & _).
  assert (Hl : TrimLeftSpace (TrimSpace s) = TrimSpace s).
  { unfold TrimLeftSpace at 1. apply (trimFront_prefix _ _ _ post).
    rewrite <- Hu. apply trimFront_fixed. }
  unfold TrimSpace at 1. rewrite Hl.
  unfold TrimSpace, TrimRightSpace. rewrite rev_involutive, trimFront_fixed. reflexivity.
Qed.

Lemma splitLines_no_LF s : Forall (fun l => LF ∉ l) (splitLines s).
Proof.
  induction s as [|c s IH]; cbn [splitLines].
  - apply Forall_cons. split; [apply not_elem_of_nil | constructor].
  - destruct (Ascii.eqb c LF) eqn:E.
    + apply Forall_cons. split; [apply not_elem_of_nil | exact IH].
    + destruct (splitLines s) as [|l ls].
      * apply Forall_cons. split; [|constructor].
        intros H. apply elem_of_cons in H as [H|H]; [|inversion H].
        subst. rewrite Ascii.eqb_refl in E. discriminate.
      * apply Forall_cons in IH as [Hl Hls]. apply Forall_cons. split; [|exact Hls].
        intros H. apply elem_of_cons in H as [H|H]; [|contradiction].
        subst. rewrite Ascii.eqb_refl in E. discriminate.
Qed.

Lemma dropFinalEmpty_sub ls l : l ∈ dropFinalEmpty ls -> l ∈ ls.
Proof.
  induction ls as [|x ls IH]; cbn [dropFinalEmpty]; [auto|].
  destruct ls as [|y ls'].
  - destruct x; [intros H; inversion H | auto].
  - intros H. apply elem_of_cons in H as [->|H]; [left | right; apply IH, H].
Qed.

Lemma takeWhile_sub {A} (p : A -> bool) l x : x ∈ takeWhile p l -> x ∈ l.
Proof.
  induction l as [|y l IH]; cbn [takeWhile]; [auto|].
  destruct (p y); [|intros H; inversion H].
  intros H. apply elem_of_cons in H as [->|H]; [left | right; apply IH, H].
Qed.

Lemma dropCR_sub l c : c ∈ dropCR l -> c ∈ l.
Proof.
  destruct (dropCR_cases l) as [->|(l0 & -> & ->)]; [auto|].
  intros H. apply elem_of_app. left. exact H.
Qed.

Lemma TrimSpace_sub s c : c ∈ TrimSpace s -> c ∈ s.
Proof.
  destruct (TrimSpace_parts s) as (pre & post & _ & Hs). intros H.
  rewrite Hs, !elem_of_app. auto.
Qed.

Lemma ExtractRoute_scan_cases ls :
  ExtractRoute_scan ls = []
  \/ exists line k, line ∈ ls /\ ExtractRoute_scan ls = TrimSpace (drop k line).
Proof.
  induction ls as [|l ls IH]; [left; reflexivity|]. cbn [ExtractRoute_scan].
  assert (Hrest : ExtractRoute_scan ls = []
                  \/ exists line k, line ∈ l :: ls
                                    /\ ExtractRoute_scan ls = TrimSpace (drop k line)).
  { destruct IH as [IH|(line & k & Hin & IH)]; [left; exact IH|].
    right. exists line, k. split; [right; exact Hin | exact IH]. }
  destruct (Contains l routeMarker); [|exact Hrest].
  unfold SplitN2. destruct (Index l routeMarker) as [i|]; [|exact Hrest].
  right. exists l, (i + length routeMarker)%nat. split; [left | reflexivity].
Qed.

(** X20: the route [ExtractRoute] returns is trimmed and lies on one
    line: trimming it again changes nothing, and it holds no line
    feed. *)
Theorem ExtractRoute_trimmed (notes : string) :
  TrimSpace (of_string (ExtractRoute notes)) = of_string (ExtractRoute notes)
  /\ LF ∉ of_string (ExtractRoute notes).
Proof.
  unfold ExtractRoute. rewrite of_to_string.
  destruct (ExtractRoute_scan_cases (ScanLines (of_string notes)))
    as [->|(line & k & Hin & ->)].
  - split; [reflexivity | apply not_elem_of_nil].
  - split; [apply TrimSpace_idempotent|].
    intros H. apply TrimSpace_sub in H.
    assert (Hl : LF ∈ line).
    { rewrite <- (take_drop k line). apply elem_of_app. right. exact H. }
    unfold ScanLines in Hin. apply list_elem_of_fmap_1 in Hin as (l0 & -> & Hin).
    apply dropCR_sub in Hl. apply takeWhile_sub, dropFinalEmpty_sub in Hin.
    pose proof (splitLines_no_LF (of_string notes)) as Hall.
    rewrite Forall_forall in Hall. exact (Hall l0 Hin Hl).
Qed.

End RouteShape.

(** ** Download of the workflows *)

Section DownloadFiles.

Variable remote : Instance.t -> Reply.
Variable remoteOne : Instance.t -> string -> ReplyOne.
Variable MarshalIndent : Workflow.t -> result string.
Variable instance : Instance.t.

Local Notation "'json'" := (jsonOf remoteOne MarshalIndent instance).
Local Notation "'put'" := (storeFile remoteOne MarshalIndent instance).

Lemma DownloadWorkflows_loop_ok workflows : forall files app out,
  fst (DownloadWorkflows_loop remoteOne MarshalIndent instance workflows files app) = Ok out ->
  Forall (fun w => is_Some (json w)) workflows
  /\ out = foldl put files workflows.
Proof.
  induction workflows as [|w ws IH]; intros files app out H.
  - cbn in H. injection H as <-. split; [constructor | reflexivity].
  - cbn [DownloadWorkflows_loop] in H. unfold GetWorkflow, bind, elapse, ret in H.
    cbn [fst snd] in H. cbn [foldl].
    assert (Hj : json w = match outcomeOne (remoteOne instance (Workflow.ID w)) with
                          | OneDecoded full =>
                              match MarshalIndent (stampInstance (Instance.Id instance) full) with
                              | Ok jsonData => Some jsonData
                              | Err _ => None
                              end
                          | _ => None
                          end) by reflexivity.
    unfold storeFile at 2.
    destruct (outcomeOne (remoteOne instance (Workflow.ID w)));
      cbn [fst snd] in H; try discriminate.
    destruct (MarshalIndent (stampInstance (Instance.Id instance) workflow));
      cbn [fst snd] in H; [|discriminate].
    rewrite Hj. apply IH in H as [Hall ->]. split; [|reflexivity].
    apply Forall_cons. split; [rewrite Hj; eexists; reflexivity | exact Hall].
Qed.

Lemma put_ok files w js : json w = Some js -> put files w = <[fileName w := js]> files.
Proof. intros H. unfold storeFile. rewrite H. reflexivity. Qed.

Lemma dom_foldl_put workflows : forall files,
  Forall (fun w => is_Some (json w)) workflows ->
  dom (foldl put files workflows)
  = dom files ∪ list_to_set (map fileName workflows).
Proof.
  induction workflows as [|w ws IH]; intros files Hall.
  - cbn. rewrite union_empty_r_L. reflexivity.
  - apply Forall_cons in Hall as [[js Hjs] Hall]. cbn [foldl map list_to_set].
    rewrite IH by exact Hall. rewrite (put_ok _ _ _ Hjs), dom_insert_L.
    rewrite (union_comm_L {[fileName w]} (dom files)), union_assoc_L. reflexivity.
Qed.

Lemma size_foldl_put workflows : forall files,
  (size (foldl put files workflows) <= size files + length workflows)%nat.
Proof.
  induction workflows as [|w ws IH]; intros files; cbn [foldl length]; [lia|].
  etransitivity; [apply IH|]. unfold storeFile. destruct (json w); [|lia].
  destruct (files !! fileName w) eqn:E.
  - rewrite map_size_insert_Some by (rewrite E; eexists; reflexivity). lia.
  - rewrite map_size_insert_None by exact E. lia.
Qed.

Lemma lookup_foldl_put workflows : forall files f js,
  Forall (fun w => is_Some (json w)) workflows ->
  foldl put files workflows !! f = Some js ->
  files !! f = Some js
  \/ exists w, w ∈ workflows /\ fileName w = f /\ json w = Some js.
Proof.
  induction workflows as [|w ws IH]; intros files f js Hall H; [left; exact H|].
  apply Forall_cons in Hall as [[js0 Hjs] Hall]. cbn [foldl] in H.
  apply IH in H; [|exact Hall]. destruct H as [H|(w' & Hin & Hf & Hj)].
  - rewrite (put_ok _ _ _ Hjs) in H.
    destruct (decide (fileName w = f)) as [<-|Hne].
    + rewrite lookup_insert_eq in H. injection H as <-.
      right. exists w. split; [left | auto].
    + rewrite lookup_insert_ne in H by exact Hne. left. exact H.
  - right. exists w'. split; [right; exact Hin | auto].
Qed.


(** X21: the files of a successful download.  The map has exactly the
    keys [workflow_<cleaned name>.json] of the listed workflows, so at
    most one file per workflow, and every file holds the marshalled
    detail of a listed workflow of that key. *)
Theorem DownloadWorkflows_files (app : App) (files : gmap string string) :
  fst (DownloadWorkflows remote remoteOne MarshalIndent instance app) = Ok files ->
  exists listed,
    fst (GetWorkflows remote instance app) = Ok listed
    /\ dom files = list_to_set (map fileName listed)
    /\ (size files <= length listed)%nat
    /\ forall f js,
         files !! f = Some js ->
         exists w full,
           w ∈ listed /\ fileName w = f
           /\ outcomeOne (remoteOne instance (Workflow.ID w)) = OneDecoded full
           /\ MarshalIndent (stampInstance (Instance.Id instance) full) = Ok js.
Proof.
  unfold DownloadWorkflows, bind.
  destruct (GetWorkflows remote instance app) as [[listed|e] app1]; [|discriminate].
  cbn [fst]. intros H. apply DownloadWorkflows_loop_ok in H as [Hall ->].
  exists listed. split; [reflexivity|].
  split; [rewrite dom_foldl_put by exact Hall; rewrite dom_empty_L; apply union_empty_l_L|].
  split; [pose proof (size_foldl_put listed ∅) as Hs; rewrite map_size_empty in Hs; exact Hs|].
  intros f js Hf. apply lookup_foldl_put in Hf; [|exact Hall].
  destruct Hf as [Hf|(w & Hin & Hfn & Hj)].
  - rewrite lookup_empty in Hf. discriminate.
  - unfold jsonOf in Hj.
    destruct (outcomeOne (remoteOne instance (Workflow.ID w))) as [| | | |full] eqn:Ho;
      try discriminate.
    destruct (MarshalIndent (stampInstance (Instance.Id instance) full)) as [js'|] eqn:Hm;
      [|discriminate].
    injection Hj as ->. exists w, full. auto.
Qed.


End DownloadFiles.

(** ** Instances of the further theorems *)

Lemma CreateFileNameFromHost_https_witness :
  Forall (fun b => isHostByte b = true) (of_string "n8n.example.com")
  /\ CreateFileNameFromHost "https://n8n.example.com" = "n8n_example_com"%string.
Proof.
  assert (H : Forall (fun b => isHostByte b = true) (of_string "n8n.example.com"))
    by (repeat constructor).
  split; [exact H|].
  exact (CreateFileNameFromHost_https (of_string "n8n.example.com") H).
Defined.

Lemma checkInstances_keeps_unique_ids_witness :
  uniqueIds (webhookStore [])
  /\ uniqueIds (snd (checkInstances map_to_list remoteFleet (webhookStore []))).
Proof.
  assert (H : uniqueIds (webhookStore [])).
  { unfold uniqueIds. cbn. repeat split.
    - constructor.
    - apply (bool_decide_unpack _). vm_compute. exact I.
    - constructor.
    - repeat constructor; cbn; lia. }
  split; [exact H|].
  exact (checkInstances_keeps_unique_ids map_to_list remoteFleet (webhookStore []) H).
Defined.

Lemma checkInstances_keeps_configuration_witness :
  NoDup (map InstanceRecord.Id (instances twoInstances))
  /\ map config (instances (snd (checkInstances map_to_list mixedFleet twoInstances)))
     = map config (instances twoInstances).
Proof.
  assert (H : NoDup (map InstanceRecord.Id (instances twoInstances)))
    by (apply (bool_decide_unpack _); vm_compute; exact I).
  split; [exact H|].
  exact (checkInstances_keeps_configuration map_to_list mixedFleet twoInstances H).
Defined.

Lemma checkInstances_keeps_references_witness :
  let app := storeWith [earlierSnapshot] in
  references (map InstanceRecord.Id (instances app)) app
  /\ references
       (map InstanceRecord.Id (instances (snd (checkInstances map_to_list remoteFleet app))))
       (snd (checkInstances map_to_list remoteFleet app)).
Proof.
  cbv zeta.
  assert (H : references (map InstanceRecord.Id (instances (storeWith [earlierSnapshot])))
                (storeWith [earlierSnapshot])).
  { split; cbn; [|constructor].
    apply Forall_cons. split; [apply list_elem_of_singleton; reflexivity | constructor]. }
  split; [exact H|].
  exact (checkInstances_keeps_references map_to_list remoteFleet (storeWith [earlierSnapshot]) H).
Defined.

Lemma checkInstances_none_due_witness :
  shouldCheckInstance (clock restedStore) (InstanceRecord.last_check restedRecord)
    (InstanceRecord.check_interval_mins restedRecord) = false
  /\ journal (snd (checkInstances map_to_list remoteFleet restedStore)) = journal restedStore.
Proof.
  split; [reflexivity|].
  refine (proj1 (proj2 (proj2 (proj2
    (checkInstances_none_due map_to_list remoteFleet restedStore _))))).
  intros rec Hrec. change (rec ∈ [restedRecord]) in Hrec.
  apply list_elem_of_singleton in Hrec. subst rec. reflexivity.
Defined.

Lemma syncWebhooks_ok_rows_witness :
  let app := webhookStore [None; None; None; Some "database is locked"%string; None] in
  fst (syncWebhooks map_to_list (instanceOf fleetRecord) fetchedWorkflow app) = None
  /\ (length (webhooksOf
                (snd (syncWebhooks map_to_list (instanceOf fleetRecord) fetchedWorkflow app))
                "i1" "wf1")
      <= length (extractWebhooksFromWorkflow map_to_list fetchedWorkflow))%nat.
Proof.
  cbv zeta. split; [reflexivity|].
  exact (proj2 (syncWebhooks_ok_rows map_to_list (instanceOf fleetRecord) fetchedWorkflow
                  (webhookStore [None; None; None; Some "database is locked"%string; None])
                  eq_refl)).
Defined.

Lemma syncWebhooks_error_saves_nothing_witness :
  let app := webhookStore [None; None; Some "disk full"%string] in
  fst (syncWebhooks map_to_list (instanceOf fleetRecord) fetchedWorkflow app)
  = Some "disk full"%string
  /\ next_id (snd (syncWebhooks map_to_list (instanceOf fleetRecord) fetchedWorkflow app))
     = next_id app.
Proof.
  cbv zeta. split; [reflexivity|].
  exact (proj1 (proj2
    (syncWebhooks_error_saves_nothing map_to_list (instanceOf fleetRecord) fetchedWorkflow
       (webhookStore [None; None; Some "disk full"%string]) "disk full" eq_refl))).
Defined.

Lemma syncWebhooks_keeps_other_rows_witness :
  let app := webhookStore [] in
  NoDup (map WebhookRecord.Id (webhooks app))
  /\ filter (fun r => matchesWebhook "i1" "wf1" r <> true)
       (webhooks (snd (syncWebhooks map_to_list (instanceOf fleetRecord) fetchedWorkflow app)))
     = filter (fun r => matchesWebhook "i1" "wf1" r <> true) (webhooks app).
Proof.
  cbv zeta.
  assert (H : NoDup (map WebhookRecord.Id (webhooks (webhookStore []))))
    by (apply (bool_decide_unpack _); vm_compute; exact I).
  split; [exact H|].
  exact (syncWebhooks_keeps_other_rows map_to_list (instanceOf fleetRecord) fetchedWorkflow
           (webhookStore []) H).
Defined.

Lemma syncInstance_success_witness :
  snd (fst (syncInstance map_to_list remoteFleet (instanceOf fleetRecord) fleetRecord
              (storeWith []))) = None
  /\ exists data, outcome (remoteFleet (instanceOf fleetRecord)) = Decoded data.
Proof.
  split; [reflexivity|].
  destruct (syncInstance_success map_to_list remoteFleet (instanceOf fleetRecord) fleetRecord
              (storeWith []) eq_refl) as (data & Ho & _).
  exists data. exact Ho.
Defined.

Lemma syncInstance_failure_witness :
  snd (fst (syncInstance map_to_list deadFleet (instanceOf fleetRecord) fleetRecord
              (storeWith [])))
  = Some "failed to get workflows: error making request: connection refused"%string
  /\ instances (snd (syncInstance map_to_list deadFleet (instanceOf fleetRecord) fleetRecord
                       (storeWith [])))
     = instances (storeWith []).
Proof.
  split; [reflexivity|].
  exact (proj1 (syncInstance_failure map_to_list deadFleet (instanceOf fleetRecord) fleetRecord
                  (storeWith []) _ eq_refl)).
Defined.

Lemma syncWorkflows_body_settles_witness :
  let app := storeWith [earlierSnapshot] in
  let app1 := snd (syncWorkflows_body map_to_list (instanceOf fleetRecord) fetchedWorkflow app) in
  faults app = []
  /\ syncWorkflows_body map_to_list (instanceOf fleetRecord) fetchedWorkflow app1 = (tt, app1).
Proof.
  cbv zeta. split; [reflexivity|].
  refine (proj2 (syncWorkflows_body_settles map_to_list (instanceOf fleetRecord) fetchedWorkflow
                   (storeWith [earlierSnapshot]) eq_refl _)).
  intros r Hr.
  change (r ∈ [earlierSnapshot]) in Hr.
  apply list_elem_of_singleton in Hr. subst r. reflexivity.
Defined.

Lemma needsUpdate_ignores_subsecond_witness :
  Workflow.UpdatedAt touchedWorkflow / Second = Workflow.UpdatedAt remoteWorkflow / Second
  /\ Workflow.UpdatedAt touchedWorkflow <> Workflow.UpdatedAt remoteWorkflow
  /\ needsUpdate touchedWorkflow
       (Ok [withWorkflowId 7 (createWorkflowRecord (instanceOf fleetRecord) remoteWorkflow)])
     = false.
Proof.
  split; [reflexivity|]. split; [discriminate|].
  exact (needsUpdate_ignores_subsecond (instanceOf fleetRecord) remoteWorkflow touchedWorkflow
           7 [] eq_refl eq_refl eq_refl).
Defined.

Lemma DownloadWorkflows_files_witness :
  fst (DownloadWorkflows twinFleet twinDetail idOnly (instanceOf fleetRecord) (storeWith []))
  = Ok twinFiles
  /\ (size twinFiles <= 3)%nat.
Proof.
  assert (H : fst (DownloadWorkflows twinFleet twinDetail idOnly (instanceOf fleetRecord)
                     (storeWith [])) = Ok twinFiles) by (vm_compute; reflexivity).
  split; [exact H|].
  destruct (DownloadWorkflows_files twinFleet twinDetail idOnly (instanceOf fleetRecord)
              (storeWith []) twinFiles H) as (listed & Hl & _ & Hs & _).
  injection Hl as <-. exact Hs.
Defined.


